(** * openclaw browser core: process supervisor and protocol client

    A shallow embedding of the browser support code of the repository:

    - [Config.normalizeHexColor]: colour normalisation of the browser
      configuration;
    - [Chrome.findChromeExecutableMac], [Chrome.setDeep],
      [Chrome.decorateClawdProfile], [Chrome.stopClawdChrome]: the
      process supervisor and its leaves;
    - [Cdp]: the request/response correlation and the capture sequence
      of [captureScreenshotPng] (src/browser/cdp.ts).

    Definitions come first, one module per source file; the theorems
    follow, grouped per operation. *)

From Stdlib Require Import ZArith Ascii String List Lia Bool.
From stdpp Require Import gmap strings list fin_maps.

Set Warnings "-register-all".
#[local] Open Scope string_scope.
#[local] Open Scope Z_scope.

(* ===================================================================== *)
(** ** JavaScript values *)
(* ===================================================================== *)

Module Js.

(** What [JSON.parse] produces.  Objects are finite maps from property
    names to values: their own data properties.  What an object
    inherits from [Object.prototype] is accounted for where the code can
    reach it (see [Chrome.setDeep]).  Numbers are the integers: the code
    only compares them with zero, uses them as map keys and copies them
    around.  [undefined] is the [None] of [option json]. *)
Inductive json : Type :=
| JNull
| JBool (b : bool)
| JNum (n : Z)
| JStr (s : string)
| JArr (items : list json)
| JObj (fields : gmap string json).

(** Truthiness, as tested by [if (v)] and [!v]. *)
Definition truthy (v : option json) : bool :=
  match v with
  | None | Some JNull => false
  | Some (JBool b) => b
  | Some (JNum n) => negb (n =? 0)
  | Some (JStr s) => negb (String.eqb s "")
  | Some (JArr _) | Some (JObj _) => true
  end.

(** [v?.k]: [undefined] on a nullish receiver, the own property of an
    object, and [undefined] on the other values for the property names
    the code reads ([id], [result], [error], [message], [data],
    [cssContentSize], [contentSize], [width], [height]). *)
Definition prop (v : option json) (k : string) : option json :=
  match v with
  | Some (JObj fields) => fields !! k
  | _ => None
  end.

(** [a ?? b] *)
Definition nullish (a b : option json) : option json :=
  match a with
  | None | Some JNull => b
  | Some _ => a
  end.

(** [typeof v === "object" && v !== null] *)
Definition isObjectType (v : json) : bool :=
  match v with
  | JObj _ | JArr _ => true
  | _ => false
  end.

(** *** Strings

    A [string] is read as a sequence of UTF-16 code units below 256. *)

Definition code (c : ascii) : N := N_of_ascii c.

(** White space and line terminators removed by [String.prototype.trim]. *)
Definition isWhiteSpace (c : ascii) : bool :=
  let n := code c in
  ((9 <=? n) && (n <=? 13) || (n =? 32) || (n =? 160))%N.

Fixpoint trimStart (s : string) : string :=
  match s with
  | EmptyString => EmptyString
  | String c r => if isWhiteSpace c then trimStart r else s
  end.

Fixpoint trimEnd (s : string) : string :=
  match s with
  | EmptyString => EmptyString
  | String c r =>
      match trimEnd r with
      | EmptyString => if isWhiteSpace c then EmptyString else String c EmptyString
      | r' => String c r'
      end
  end.

Definition trim (s : string) : string := trimEnd (trimStart s).

(** [toUpperCase] on one code unit below 256: the ASCII letters and the
    Latin-1 letters (U+00E0 to U+00FE without the division sign).  Three
    more code units have capitals outside this range (the micro sign, y
    with diaeresis) or of two letters (sharp s); they are left as they
    are, and a string with one of them is outside the model. *)
Definition upper (c : ascii) : ascii :=
  let n := code c in
  if ((97 <=? n) && (n <=? 122) || (224 <=? n) && (n <=? 254) && negb (n =? 247))%N
  then ascii_of_N (n - 32)
  else c.

Fixpoint toUpperCase (s : string) : string :=
  match s with
  | EmptyString => EmptyString
  | String c r => String (upper c) (toUpperCase r)
  end.

Definition startsWith (s : string) (c : ascii) : bool :=
  match s with
  | String d _ => Ascii.eqb c d
  | EmptyString => false
  end.

(** The character classes of the colour pattern. *)
Definition isDigit (c : ascii) : bool := ((48 <=? code c) && (code c <=? 57))%N.
Definition isLowerHex (c : ascii) : bool := ((97 <=? code c) && (code c <=? 102))%N.
Definition isUpperHex (c : ascii) : bool := ((65 <=? code c) && (code c <=? 70))%N.
Definition isHexDigit (c : ascii) : bool := isDigit c || isLowerHex c || isUpperHex c.

Fixpoint allChars (f : ascii -> bool) (s : string) : bool :=
  match s with
  | EmptyString => true
  | String c r => f c && allChars f r
  end.

End Js.

(* ===================================================================== *)
(** ** Browser configuration ([./config.js]) *)
(* ===================================================================== *)

Module Config.
Import Js.

(** Modelled from the spec: [constants.js] is not part of the sources at
    hand.  The spec calls this "the fixed default color"; the unit test
    of [resolveBrowserConfig] pins its value. *)
Definition DEFAULT_CLAWD_BROWSER_COLOR : string := "#FF4500".

(** [/^#[0-9a-fA-F]{6}$/.test(s)] *)
Definition testHexColor (s : string) : bool :=
  match s with
  | String "#" r => (String.length r =? 6)%nat && allChars isHexDigit r
  | _ => false
  end.

Definition normalizeHexColor (raw : option string) : string :=
  let value := trim (default "" raw) in
  if String.eqb value "" then DEFAULT_CLAWD_BROWSER_COLOR
  else
    let normalized := if startsWith value "#" then value else String "#" value in
    if negb (testHexColor normalized) then DEFAULT_CLAWD_BROWSER_COLOR
    else toUpperCase normalized.

(** The spec's notion of a valid colour: six hexadecimal digits, with or
    without the leading marker. *)
Definition sixHexDigits (s : string) : bool :=
  (String.length s =? 6)%nat && allChars isHexDigit s.

Definition validColor (s : string) : bool :=
  match s with
  | String "#" r => sixHexDigits r
  | _ => sixHexDigits s
  end.

(** The digits of a colour, marker removed. *)
Definition colorDigits (s : string) : string :=
  match s with
  | String "#" r => r
  | _ => s
  end.

(** The upper-case [#RRGGBB] shape. *)
Definition isUpperColor (s : string) : bool :=
  match s with
  | String "#" r =>
      (String.length r =? 6)%nat && allChars (fun c => isDigit c || isUpperHex c) r
  | _ => false
  end.

End Config.

(* ===================================================================== *)
(** ** Process supervisor: locator, brander, shutdown *)
(* ===================================================================== *)

Module Chrome.
Import Js.

(** *** File system

    A file's text is represented by what [JSON.parse] makes of it:
    [Unparsable] when it throws, [Encodes j] when it yields [j]
    ([JSON.stringify] of a JSON tree [j] is a text that encodes [j]).
    Which operations raise an I/O error (permissions, read-only volume,
    ...) is part of the state: [faulty op path]. *)

Inductive Text := Unparsable | Encodes (j : json).

Inductive Op := OpRead | OpWrite | OpMkdir.

Record FileSystem := {
  files : gmap string Text;
  faulty : Op -> string -> bool;
}.

Inductive Outcome (A : Type) : Type :=
| Returns (a : A)
| Throws (e : string).
Arguments Returns {A} a.
Arguments Throws {A} e.

(** Computations over the file system; the state reached before a throw
    is kept, as a JavaScript exception does not undo writes. *)
Definition IO (A : Type) : Type := FileSystem -> Outcome A * FileSystem.

Definition ret {A} (a : A) : IO A := fun fs => (Returns a, fs).

Definition bind {A B} (m : IO A) (k : A -> IO B) : IO B :=
  fun fs =>
    match m fs with
    | (Returns a, fs') => k a fs'
    | (Throws e, fs') => (Throws e, fs')
    end.

(** [try { m } catch (e) { h(e) }] *)
Definition tryCatch {A} (m : IO A) (h : string -> IO A) : IO A :=
  fun fs =>
    match m fs with
    | (Returns a, fs') => (Returns a, fs')
    | (Throws e, fs') => h e fs'
    end.

Notation "x <- m ;; k" := (bind m (fun x => k))
  (at level 100, m at next level, right associativity).
Notation "m ;;; k" := (bind m (fun _ => k))
  (at level 100, right associativity).

Definition existsSync (p : string) : IO bool :=
  fun fs => (Returns (bool_decide (is_Some (files fs !! p))), fs).

Definition readFileSync (p : string) : IO Text :=
  fun fs =>
    if faulty fs OpRead p then (Throws "EIO", fs)
    else match files fs !! p with
         | Some t => (Returns t, fs)
         | None => (Throws "ENOENT", fs)
         end.

Definition writeFileSync (p : string) (t : Text) : IO unit :=
  fun fs =>
    if faulty fs OpWrite p then (Throws "EACCES", fs)
    else (Returns tt, {| files := <[p := t]> (files fs); faulty := faulty fs |}).

(** [fs.mkdirSync(p, { recursive: true })].  [files] holds the regular
    files; the directories this call creates are not part of the state,
    so all that shows of it here is whether it throws. *)
Definition mkdirSync (p : string) : IO unit :=
  fun fs => if faulty fs OpMkdir p then (Throws "EACCES", fs) else (Returns tt, fs).

Definition JSON_parse (t : Text) : IO json :=
  match t with
  | Encodes j => ret j
  | Unparsable => fun fs => (Throws "SyntaxError", fs)
  end.

Definition JSON_stringify (j : json) : Text := Encodes j.

(** [path.join] and [path.dirname] of POSIX on paths in normal form:
    [path.join(a, b)] is the concatenation below when [a] is a directory
    without trailing slash and neither has an empty, [.] or [..]
    segment; other arguments, which [path.join] would bring into normal
    form first, are outside the model. *)
Definition path_join (a b : string) : string := a +:+ "/" +:+ b.

Fixpoint beforeLastSlash (p : string) : option string :=
  match p with
  | EmptyString => None
  | String c r =>
      match beforeLastSlash r with
      | Some d => Some (String c d)
      | None => if Ascii.eqb c "/" then Some EmptyString else None
      end
  end.

Definition path_dirname (p : string) : string :=
  match beforeLastSlash p with
  | Some EmptyString => "/"
  | Some d => d
  | None => "."
  end.

Definition exists_ (filePath : string) : IO bool :=
  tryCatch (existsSync filePath) (fun _ => ret false).

(** *** Executable locator *)

Inductive BrowserKind := canary | chromium | chrome.

Record BrowserExecutable := {
  kind : BrowserKind;
  path : string;
}.

Definition candidates (homedir : string) : list BrowserExecutable :=
  [ {| kind := canary;
       path := "/Applications/Google Chrome Canary.app/Contents/MacOS/Google Chrome Canary" |};
    {| kind := canary;
       path := path_join homedir
                 "Applications/Google Chrome Canary.app/Contents/MacOS/Google Chrome Canary" |};
    {| kind := chromium;
       path := "/Applications/Chromium.app/Contents/MacOS/Chromium" |};
    {| kind := chromium;
       path := path_join homedir "Applications/Chromium.app/Contents/MacOS/Chromium" |};
    {| kind := chrome;
       path := "/Applications/Google Chrome.app/Contents/MacOS/Google Chrome" |};
    {| kind := chrome;
       path := path_join homedir
                 "Applications/Google Chrome.app/Contents/MacOS/Google Chrome" |} ].

(** [for (const candidate of candidates) if (exists(candidate.path)) return candidate;
     return null] *)
Fixpoint firstExisting (cs : list BrowserExecutable) : IO (option BrowserExecutable) :=
  match cs with
  | [] => ret None
  | candidate :: rest =>
      found <- exists_ (path candidate) ;;
      if found then ret (Some candidate) else firstExisting rest
  end.

Definition findChromeExecutableMac (homedir : string) : IO (option BrowserExecutable) :=
  firstExisting (candidates homedir).

(** Whether something exists at a path. *)
Definition present (fs : FileSystem) (p : string) : bool :=
  bool_decide (is_Some (files fs !! p)).

(** The system-wide path of the stable release, and two file systems:
    one where nothing else is installed, one where nothing is. *)
Definition stableSystemPath : string :=
  "/Applications/Google Chrome.app/Contents/MacOS/Google Chrome".

Definition onlyStable : FileSystem :=
  {| files := {[ stableSystemPath := Unparsable ]}; faulty := fun _ _ => false |}.

Definition nothingInstalled : FileSystem :=
  {| files := ∅; faulty := fun _ _ => false |}.

(** *** Profile brander *)

Definition decoratedMarkerPath (userDataDir : string) : string :=
  path_join userDataDir ".clawd-profile-decorated".

Definition safeReadJson (filePath : string) : IO (option json) :=
  tryCatch
    (found <- exists_ filePath ;;
     if negb found then ret None
     else
       raw <- readFileSync filePath ;;
       parsed <- JSON_parse raw ;;
       if negb (isObjectType parsed) then ret None else ret (Some parsed))
    (fun _ => ret None).

Definition safeWriteJson (filePath : string) (data : json) : IO unit :=
  mkdirSync (path_dirname filePath) ;;;
  writeFileSync filePath (JSON_stringify data).

(** [node[key]] looks a name that is no own property up in the
    prototype of the object, which for the objects of a tree is
    [Object.prototype].  The names the platform defines there hold
    functions, which [setDeep] treats like an absent property and which
    an assignment shadows by an own property; the exception is
    [__proto__], an accessor that reads and replaces the prototype of
    the object it is used on.  [inherited obj key] says that [key]
    reaches this accessor on [obj]. *)
Definition inherited (obj : gmap string json) (key : string) : bool :=
  String.eqb key "__proto__"
  && match obj !! key with
     | None => true
     | Some _ => false
     end.

(** The plain object at a path below [props], and an update of it in
    place. *)
Fixpoint nodeAt (props : gmap string json) (path : list string) : gmap string json :=
  match path with
  | [] => props
  | key :: rest =>
      match props !! key with
      | Some (JObj fields) => nodeAt fields rest
      | _ => ∅
      end
  end.

Fixpoint updateAt (props : gmap string json) (path : list string)
    (f : gmap string json -> gmap string json) : gmap string json :=
  match path with
  | [] => f props
  | key :: rest =>
      match props !! key with
      | Some (JObj fields) => <[ key := JObj (updateAt fields rest f) ]> props
      | _ => props
      end
  end.

(** What [setDeep] does once [node] is [Object.prototype], which all
    objects share: it throws a [TypeError], or it leaves
    [Object.prototype] with own data properties it did not have, and
    possibly an object among them with another prototype. *)
Inductive Shared :=
| SharedThrows
| SharedSets (props : gmap string json) (reparented : option (list string * json)).

(** The walk from [Object.prototype] on.  [props] are the data
    properties [Object.prototype] has gained so far in this call,
    [cursor] is where [node] is below them ([[]] is [Object.prototype]
    itself).  [Object.prototype] has no prototype and refuses to be
    given one; an object below it finds a name that is no own property
    in [Object.prototype], and shares the object it finds there. *)
Fixpoint inObjectPrototype (props : gmap string json) (cursor : list string)
    (keys : list string) (value : json) : Shared :=
  match keys with
  | [] => SharedSets props None
  | [key] =>
      match nodeAt props cursor !! key with
      | Some _ => SharedSets (updateAt props cursor (insert key value)) None
      | None =>
          if String.eqb key "__proto__" then
            match cursor, value with
            | [], (JObj _ | JArr _) => SharedThrows
            | [], _ => SharedSets props None
            | _ :: _, (JObj _ | JArr _ | JNull) => SharedSets props (Some (cursor, value))
            | _ :: _, _ => SharedSets props None
            end
          else SharedSets (updateAt props cursor (insert key value)) None
      end
  | key :: rest =>
      match nodeAt props cursor !! key with
      | Some (JObj _) => inObjectPrototype props (cursor ++ [key]) rest value
      | Some _ =>
          inObjectPrototype (updateAt props cursor (insert key (JObj ∅)))
            (cursor ++ [key]) rest value
      | None =>
          if String.eqb key "__proto__" then
            match cursor with
            | [] => SharedThrows
            | _ :: _ => inObjectPrototype props [] rest value
            end
          else
            match cursor, props !! key with
            | _ :: _, Some (JObj _) => inObjectPrototype props [key] rest value
            | _, _ =>
                inObjectPrototype (updateAt props cursor (insert key (JObj ∅)))
                  (cursor ++ [key]) rest value
            end
      end
  end.

(** Where a call of [setDeep] wrote. *)
Inductive Reach :=
| Tree
    (* own properties of the tree, and nothing else *)
| Ignored
    (* [node.__proto__ = value] with a primitive value: the accessor
       ignores it, nothing is written *)
| Prototype (proto : json)
    (* [node.__proto__ = value] with an object, an array or null: the
       last node has that value as its prototype from now on *)
| ObjectPrototype (shared : Shared).
    (* [node = node.__proto__]: the walk left the tree for
       [Object.prototype] and went on there *)

(** The own properties of the tree after the call (when it throws: at
    that moment), and where it wrote. *)
Record Written := {
  tree : gmap string json;
  reach : Reach;
}.

(** [setDeep] walks [keys] but the last, replacing what is not a plain
    object by [{}], and binds the last key ([""] for an empty path).
    The object is a tree, so the in-place update is the functional one.
    [Object.prototype] is taken as the platform provides it when the
    call starts. *)
Fixpoint setDeep (obj : gmap string json) (keys : list string) (value : json)
  : Written :=
  match keys with
  | [] => {| tree := <[ "" := value ]> obj; reach := Tree |}
  | [key] =>
      if inherited obj key then
        {| tree := obj;
           reach := match value with
                    | JObj _ | JArr _ | JNull => Prototype value
                    | JBool _ | JNum _ | JStr _ => Ignored
                    end |}
      else {| tree := <[ key := value ]> obj; reach := Tree |}
  | key :: rest =>
      if inherited obj key then
        {| tree := obj; reach := ObjectPrototype (inObjectPrototype ∅ [] rest value) |}
      else
        let next := match obj !! key with
                    | Some (JObj fields) => fields
                    | _ => ∅
                    end in
        let below := setDeep next rest value in
        {| tree := <[ key := JObj (tree below) ]> obj; reach := reach below |}
  end.

(** [setDeep] on what [safeReadJson] returns, for the key paths of the
    brander: they are literals without [__proto__], so the calls write
    own properties only.  An array passes the object test of
    [safeReadJson]; the properties [setDeep] adds to an array are named
    ones, which [JSON.stringify] leaves out, so the value to be written
    back is the array as read. *)
Definition setDeepRoot (root : json) (keys : list string) (value : json) : json :=
  match root with
  | JObj fields => JObj (tree (setDeep fields keys value))
  | other => other
  end.

(** Reading along a key path, through plain objects only. *)
Fixpoint getPath (v : json) (keys : list string) : option json :=
  match keys with
  | [] => Some v
  | key :: rest =>
      match v with
      | JObj fields => fields !! key ≫= fun next => getPath next rest
      | _ => None
      end
  end.

(** Two key paths part ways: after a common prefix they continue with
    different keys. *)
Definition partWays (keys other : list string) : Prop :=
  ∃ (pre : list string) (k k' : string) (rest rest' : list string),
    k ≠ k' ∧ keys = (pre ++ k :: rest)%list ∧ other = (pre ++ k' :: rest')%list.

(** On a key path, [__proto__] only names own properties, as
    [JSON.parse] makes them from a text with that key: wherever the path
    has the key, the path up to and including it leads to a value.  A
    path without the key is such a path. *)
Definition ownProto (obj : gmap string json) (keys : list string) : Prop :=
  ∀ (pre rest : list string),
    keys = (pre ++ "__proto__" :: rest)%list →
    is_Some (getPath (JObj obj) (pre ++ ["__proto__"])).

Definition isPlainObject (v : option json) : bool :=
  match v with
  | Some (JObj _) => true
  | _ => false
  end.

(** The object [setDeep] descends into below [key]. *)
Definition nextNode (obj : gmap string json) (key : string) : gmap string json :=
  match obj !! key with
  | Some (JObj fields) => fields
  | _ => ∅
  end.

(** A preference object with an array where the profile should be. *)
Definition samplePrefs : gmap string json :=
  {[ "profile" := JArr [JNum 1]; "browser" := JObj {[ "theme" := JStr "dark" ]} ]}.

Record DecorateOpts := { color : option string }.

Section Brander.

(** The profile name of [constants.js], which is not among the sources. *)
Variable DEFAULT_CLAWD_BROWSER_PROFILE_NAME : string.
(** [Date.now()] when the marker is written. *)
Variable now : Z.

Definition decorateClawdProfile (userDataDir : string) (opts : option DecorateOpts)
  : IO unit :=
  let desiredName := JStr DEFAULT_CLAWD_BROWSER_PROFILE_NAME in
  let desiredColor :=
    JStr (toUpperCase
            (default Config.DEFAULT_CLAWD_BROWSER_COLOR (opts ≫= color))) in
  let localStatePath := path_join userDataDir "Local State" in
  let preferencesPath := path_join (path_join userDataDir "Default") "Preferences" in
  read <- safeReadJson localStatePath ;;
  let localState := default (JObj ∅) read in
  let localState :=
    setDeepRoot localState ["profile"; "info_cache"; "Default"; "name"] desiredName in
  let localState :=
    setDeepRoot localState ["profile"; "info_cache"; "Default"; "shortcut_name"] desiredName in
  let localState :=
    setDeepRoot localState ["profile"; "info_cache"; "Default"; "user_name"] desiredName in
  let localState :=
    setDeepRoot localState ["profile"; "info_cache"; "Default"; "profile_color"] desiredColor in
  let localState :=
    setDeepRoot localState ["profile"; "info_cache"; "Default"; "user_color"] desiredColor in
  safeWriteJson localStatePath localState ;;;
  read <- safeReadJson preferencesPath ;;
  let prefs := default (JObj ∅) read in
  let prefs := setDeepRoot prefs ["profile"; "name"] desiredName in
  let prefs := setDeepRoot prefs ["profile"; "profile_color"] desiredColor in
  let prefs := setDeepRoot prefs ["profile"; "user_color"] desiredColor in
  safeWriteJson preferencesPath prefs ;;;
  tryCatch
    (writeFileSync (decoratedMarkerPath userDataDir) (Encodes (JNum now)))
    (fun _ => ret tt).

(** The decoration step of [launchClawdChrome]:
    [try { decorateClawdProfile(...); logInfo(...) } catch (err) { logWarn(...) }].
    The value returned is the line logged. *)
Inductive LogLine := LogInfo | LogWarn (err : string).

Definition launchDecorate (userDataDir : string) (resolvedColor : string)
  : IO LogLine :=
  tryCatch
    (decorateClawdProfile userDataDir (Some {| color := Some resolvedColor |}) ;;;
     ret LogInfo)
    (fun err => ret (LogWarn err)).

End Brander.

(** Whether the two preference files can be written: neither creating
    their directories nor writing them raises. *)
Definition prefsWritable (fs : FileSystem) (userDataDir : string) : bool :=
  let localStatePath := path_join userDataDir "Local State" in
  let preferencesPath := path_join (path_join userDataDir "Default") "Preferences" in
  negb (faulty fs OpMkdir (path_dirname localStatePath))
  && negb (faulty fs OpWrite localStatePath)
  && negb (faulty fs OpMkdir (path_dirname preferencesPath))
  && negb (faulty fs OpWrite preferencesPath).

(** A profile on a volume that takes no writes, and one whose files
    cannot be read and whose marker cannot be written. *)
Definition readOnlyVolume : FileSystem :=
  {| files := ∅;
     faulty := fun op _ => match op with OpWrite => true | _ => false end |}.

Definition unreadableProfile : FileSystem :=
  {| files := {[ "/profile/Local State" := Unparsable;
                 "/profile/Default/Preferences" := Encodes (JArr []) ]};
     faulty := fun op p =>
                 match op with
                 | OpRead => true
                 | OpWrite => String.eqb p "/profile/.clawd-profile-decorated"
                 | OpMkdir => false
                 end |}.

(** *** Shutdown

    [stopClawdChrome] talks to the child process, the clock and the
    debug endpoint.  The child process object follows Node's
    [ChildProcess]: [killed] is set by [kill()] when the signal was
    delivered (it does not say that the process has ended), [exitCode]
    is [null] until the process exits with a code. *)

Inductive Signal := SIGTERM | SIGKILL.

Record ChildProcess := {
  killed : bool;
  exitCode : option Z;
}.

Record RunningChrome := {
  pid : Z;
  exe : BrowserExecutable;
  userDataDir : string;
  cdpPort : Z;
  startedAt : Z;
  proc : ChildProcess;
}.

(** What [proc.kill(signal)] does: deliver the signal and return true,
    return false because the process is gone, or throw. *)
Inductive KillResult := Delivered | NoSuchProcess | KillThrows.

(** What the surroundings answer during one call. *)
Record StopEnv := {
  killResult : Signal -> KillResult;
  startNow : Z;                  (* [Date.now()] read into [start] *)
  nowAt : nat -> Z;              (* [Date.now()] at the i-th loop test *)
  exitCodeAt : nat -> option Z;  (* [proc.exitCode] in the i-th iteration *)
  reachableAt : nat -> bool;     (* [isChromeReachable(cdpPort, 200)] there *)
}.

(** What the call does, in order. *)
Inductive Action :=
| Kill (s : Signal)
| Probe (reachable : bool)
| Sleep (ms : Z).

(** [try { proc.kill(s) } catch {}]: the new value of [proc.killed]. *)
Definition kill (env : StopEnv) (s : Signal) (wasKilled : bool) : bool :=
  match killResult env s with
  | Delivered => true
  | NoSuchProcess | KillThrows => wasKilled
  end.

(** [!proc.exitCode] *)
Definition noExitCode (c : option Z) : bool :=
  match c with
  | None => true
  | Some n => n =? 0
  end.

(** The polling loop and the forced kill after it; [None] when [fuel]
    iterations did not reach the end of the loop. *)
Fixpoint poll (fuel : nat) (env : StopEnv) (i : nat) (timeoutMs : Z) (isKilled : bool)
  : option (list Action) :=
  match fuel with
  | O => None
  | S fuel' =>
      if nowAt env i - startNow env <? timeoutMs then
        if noExitCode (exitCodeAt env i) && isKilled then Some [Kill SIGKILL]
        else if negb (reachableAt env i) then Some [Probe false]
        else
          rest ← poll fuel' env (S i) timeoutMs isKilled;
          Some (Probe true :: Sleep 100 :: rest)
      else Some [Kill SIGKILL]
  end.

Definition stopClawdChrome (fuel : nat) (env : StopEnv) (running : RunningChrome)
    (timeoutMs : Z) : option (list Action) :=
  let p := proc running in
  if killed p then Some []
  else
    let isKilled := kill env SIGTERM (killed p) in
    rest ← poll fuel env 0 timeoutMs isKilled;
    Some (Kill SIGTERM :: rest).

(** A running browser whose endpoint stops answering as soon as it is
    asked to terminate, on a clock that advances by 100ms per turn. *)
Definition sampleRunning : RunningChrome :=
  {| pid := 4242;
     exe := {| kind := chrome; path := stableSystemPath |};
     userDataDir := "/profile";
     cdpPort := 18791;
     startedAt := 0;
     proc := {| killed := false; exitCode := None |} |}.

Definition promptExit : StopEnv :=
  {| killResult := fun _ => Delivered;
     startNow := 1000;
     nowAt := fun i => 1000 + 100 * Z.of_nat i;
     exitCodeAt := fun _ => None;
     reachableAt := fun _ => false |}.

(** The same surroundings with a process object that [kill] cannot
    signal any more. *)
Definition goneProcess : StopEnv :=
  {| killResult := fun _ => NoSuchProcess;
     startNow := 1000;
     nowAt := fun i => 1000 + 100 * Z.of_nat i;
     exitCodeAt := fun _ => None;
     reachableAt := fun i => (i <? 3)%nat |}.

(** *** The brander's files and edits *)

Definition localStatePath (userDataDir : string) : string :=
  path_join userDataDir "Local State".

Definition preferencesPath (userDataDir : string) : string :=
  path_join (path_join userDataDir "Default") "Preferences".

(** What [safeReadJson] hands back. *)
Definition readJson (fs : FileSystem) (filePath : string) : option json :=
  match (safeReadJson filePath fs).1 with
  | Returns read => read
  | Throws _ => None
  end.

(** The edits [decorateClawdProfile] makes to the tree of [Local State]
    and to the tree of [Preferences], in its order. *)
Definition brandLocalState (name color : json) (localState : json) : json :=
  let localState :=
    setDeepRoot localState ["profile"; "info_cache"; "Default"; "name"] name in
  let localState :=
    setDeepRoot localState ["profile"; "info_cache"; "Default"; "shortcut_name"] name in
  let localState :=
    setDeepRoot localState ["profile"; "info_cache"; "Default"; "user_name"] name in
  let localState :=
    setDeepRoot localState ["profile"; "info_cache"; "Default"; "profile_color"] color in
  setDeepRoot localState ["profile"; "info_cache"; "Default"; "user_color"] color.

Definition brandPreferences (name color : json) (prefs : json) : json :=
  let prefs := setDeepRoot prefs ["profile"; "name"] name in
  let prefs := setDeepRoot prefs ["profile"; "profile_color"] color in
  setDeepRoot prefs ["profile"; "user_color"] color.

(** The key paths the brander writes in each file. *)
Definition localStateKeys : list (list string) :=
  [ ["profile"; "info_cache"; "Default"; "name"];
    ["profile"; "info_cache"; "Default"; "shortcut_name"];
    ["profile"; "info_cache"; "Default"; "user_name"];
    ["profile"; "info_cache"; "Default"; "profile_color"];
    ["profile"; "info_cache"; "Default"; "user_color"] ].

Definition preferencesKeys : list (list string) :=
  [ ["profile"; "name"]; ["profile"; "profile_color"]; ["profile"; "user_color"] ].

(** [(opts?.color ?? DEFAULT_CLAWD_BROWSER_COLOR).toUpperCase()] *)
Definition desiredColor (opts : option DecorateOpts) : json :=
  JStr (toUpperCase (default Config.DEFAULT_CLAWD_BROWSER_COLOR (opts ≫= color))).

Definition isArray (v : option json) : bool :=
  match v with
  | Some (JArr _) => true
  | _ => false
  end.

(** A profile the browser has created, with settings of its own. *)
Definition freshProfile : FileSystem :=
  {| files := {[ "/profile/Local State" :=
                   Encodes (JObj {[ "profile" := JObj {[ "info_cache" := JNull ]};
                                    "browser" := JObj {[ "enabled" := JBool true ]} ]});
                 "/profile/Default/Preferences" :=
                   Encodes (JObj {[ "profile" := JObj {[ "name" := JStr "Person 1";
                                                         "avatar" := JNum 26 ]} ]}) ]};
     faulty := fun _ _ => false |}.

(** *** Shapes of a shutdown *)

(** [n] turns of the loop that found the endpoint reachable. *)
Fixpoint rounds (n : nat) : list Action :=
  match n with
  | O => []
  | S n' => Probe true :: Sleep 100 :: rounds n'
  end.

(** How often a run probed the endpoint. *)
Definition isProbe (a : Action) : bool :=
  match a with
  | Probe _ => true
  | _ => false
  end.

Definition probes (tr : list Action) : nat := length (List.filter isProbe tr).

End Chrome.

(* ===================================================================== *)
(** ** Protocol client (src/browser/cdp.ts) *)
(* ===================================================================== *)

Module Cdp.
Import Js.

(** [new Error(message)], the message kept as the value it was built
    from, and the [TypeError] with which the platform refuses an
    argument. *)
Inductive Error :=
| NewError (message : json)
| TypeError (received : json).

Definition connectionClosed : Error := NewError (JStr "CDP socket closed").
Definition captureFailed : Error := NewError (JStr "Screenshot failed: missing data").

Record Clip := {
  x : Z;
  y : Z;
  width : Z;
  height : Z;
  scale : Z;
}.

(** The parameters of [Page.captureScreenshot]; [clip = None] is a
    parameter object without the [clip] key. *)
Record CaptureParams := {
  format : string;
  fromSurface : bool;
  captureBeyondViewport : bool;
  clip : option Clip;
}.

(** An outgoing frame [{ id, method, params }]. *)
Record Message := {
  id : Z;
  method : string;
  params : option CaptureParams;
}.

(** A promise made by [send] is named by the id of that call; a
    [Pending] entry holds the [resolve] and [reject] of its promise. *)
Record Pending := { promise : Z }.

Inductive Settlement :=
| Resolved (value : option json)
| Rejected (err : Error).

(** The variables the closures of one call share, and the socket as far
    as the client drives it: the frames handed to [ws.send], and whether
    [ws.close()] was called. *)
Record Conn := {
  nextId : Z;
  pending : gmap Z Pending;
  sent : list Message;
  closeCalled : bool;
}.

Definition send (m : string) (ps : option CaptureParams) (c : Conn) : Z * Conn :=
  let i := nextId c in
  (i, {| nextId := i + 1;
         pending := <[i := {| promise := i |}]> (pending c);
         sent := sent c ++ [{| id := i; method := m; params := ps |}];
         closeCalled := closeCalled c |}).

(** The handlers return the connection and the promises they settled. *)
Definition closeWithError (err : Error) (c : Conn) : Conn * list (Z * Settlement) :=
  ({| nextId := nextId c; pending := ∅; sent := sent c; closeCalled := true |},
   (fun kv : Z * Pending => (promise kv.2, Rejected err)) <$> map_to_list (pending c)).

(** The [message] handler.  [parsed] is what [JSON.parse(String(data))]
    gives, [None] when it throws.  A frame that is not an object with a
    numeric [id] is ignored (on [null] the property access throws and
    the handler's [catch] swallows it). *)
Definition onMessage (parsed : option json) (c : Conn) : Conn * list (Z * Settlement) :=
  match prop parsed "id" with
  | Some (JNum i) =>
      match pending c !! i with
      | None => (c, [])
      | Some p =>
          let c' := {| nextId := nextId c; pending := delete i (pending c);
                       sent := sent c; closeCalled := closeCalled c |} in
          let message := prop (prop parsed "error") "message" in
          match message with
          | Some m =>
              if truthy message then (c', [(promise p, Rejected (NewError m))])
              else (c', [(promise p, Resolved (prop parsed "result"))])
          | None => (c', [(promise p, Resolved (prop parsed "result"))])
          end
      end
  | _ => (c, [])
  end.

(** *** The capture sequence *)

Record Opts := {
  wsUrl : string;
  fullPage : option bool;
}.

(** Where the [async] function is suspended, with the promise awaited. *)
Inductive Await :=
| AwaitOpen
| AwaitEnable (p : Z)
| AwaitMetrics (p : Z)
| AwaitCapture (p : Z).

(** The function is suspended, has returned the buffer that
    [Buffer.from(base64, "base64")] made, or has thrown. *)
Inductive Flow :=
| Suspended (a : Await)
| ReturnsBufferFrom (base64 : json)
| Thrown (err : Error).

Section Capture.

(** [Number(v)] on strings, arrays and objects, [None] for NaN; the
    declared type of the layout metrics has numbers there. *)
Variable ToNumber : json -> option Z.

Definition Number (v : option json) : option Z :=
  match v with
  | None => None
  | Some (JNum n) => Some n
  | Some (JBool b) => Some (if b then 1 else 0)
  | Some JNull => Some 0
  | Some other => ToNumber other
  end.

(** [metrics?.cssContentSize ?? metrics?.contentSize] *)
Definition sizeOf (metrics : option json) : option json :=
  nullish (prop metrics "cssContentSize") (prop metrics "contentSize").

(** [Number(size?.width ?? 0)], and the same for the height. *)
Definition dimension (size : option json) (k : string) : option Z :=
  Number (nullish (prop size k) (Some (JNum 0))).

Definition clipOf (metrics : option json) : option Clip :=
  let size := sizeOf metrics in
  match dimension size "width", dimension size "height" with
  | Some w, Some h =>
      if (0 <? w) && (0 <? h)
      then Some {| x := 0; y := 0; width := w; height := h; scale := 1 |}
      else None
  | _, _ => None
  end.

Definition captureParams (c : option Clip) : CaptureParams :=
  {| format := "png"; fromSurface := true; captureBeyondViewport := true; clip := c |}.

Definition requested (o : Opts) : bool :=
  match fullPage o with
  | Some true => true
  | _ => false
  end.

(** The function between two suspensions. *)
Definition capture (cl : option Clip) (c : Conn) : Conn * Flow * list (Z * Settlement) :=
  let '(p, c') := send "Page.captureScreenshot" (Some (captureParams cl)) c in
  (c', Suspended (AwaitCapture p), []).

Definition afterOpen (c : Conn) : Conn * Flow * list (Z * Settlement) :=
  let '(p, c') := send "Page.enable" None c in
  (c', Suspended (AwaitEnable p), []).

Definition afterEnable (o : Opts) (c : Conn) : Conn * Flow * list (Z * Settlement) :=
  if requested o then
    let '(p, c') := send "Page.getLayoutMetrics" None c in
    (c', Suspended (AwaitMetrics p), [])
  else capture None c.

Definition afterMetrics (metrics : option json) (c : Conn)
  : Conn * Flow * list (Z * Settlement) :=
  capture (clipOf metrics) c.

(** Whether [Buffer.from(v, "base64")] hands back a buffer; it throws
    a [TypeError] when it does not.  A string is decoded (characters
    outside the alphabet are skipped) and an array is copied.  A number
    or a boolean is refused.  An object is asked for its [valueOf]
    first: an own property of that name is no function, so calling it
    throws unless it is falsy, and the empty string it may hold is
    decoded; failing that the object is taken when it has a [length] or
    is the JSON form of a buffer, [{ type: "Buffer", data: [...] }]. *)
Definition bufferAccepts (v : json) : bool :=
  match v with
  | JStr _ | JArr _ => true
  | JNull | JBool _ | JNum _ => false
  | JObj fields =>
      if truthy (fields !! "valueOf") then false
      else
        match fields !! "valueOf", fields !! "length", fields !! "type", fields !! "data" with
        | Some (JStr _), _, _, _ => true
        | _, Some _, _, _ => true
        | _, None, Some (JStr kind), Some (JArr _) => String.eqb kind "Buffer"
        | _, _, _, _ => false
        end
  end.

(** [ws.close()] comes before [Buffer.from], so the socket is closed
    also when the payload is refused. *)
Definition afterCapture (result : option json) (c : Conn)
  : Conn * Flow * list (Z * Settlement) :=
  match prop result "data" with
  | Some base64 =>
      if truthy (Some base64) then
        ({| nextId := nextId c; pending := pending c; sent := sent c;
            closeCalled := true |},
         if bufferAccepts base64 then ReturnsBufferFrom base64
         else Thrown (TypeError base64),
         [])
      else
        let '(c', rejected) := closeWithError captureFailed c in
        (c', Thrown captureFailed, rejected)
  | None =>
      let '(c', rejected) := closeWithError captureFailed c in
      (c', Thrown captureFailed, rejected)
  end.

Definition awaited (a : Await) : option Z :=
  match a with
  | AwaitOpen => None
  | AwaitEnable p | AwaitMetrics p | AwaitCapture p => Some p
  end.

Definition settlementOf (p : Z) (news : list (Z * Settlement)) : option Settlement :=
  snd <$> List.find (fun e : Z * Settlement => e.1 =? p) news.

(** After a handler has run, the function resumes if the promise it
    awaits was settled: a rejection is thrown out of the function, a
    value lets it run to its next suspension. *)
Definition resume (o : Opts) (news : list (Z * Settlement)) (c : Conn) (f : Flow)
  : Conn * Flow * list (Z * Settlement) :=
  match f with
  | Suspended a =>
      match awaited a ≫= (fun p => settlementOf p news) with
      | Some (Rejected e) => (c, Thrown e, [])
      | Some (Resolved v) =>
          match a with
          | AwaitOpen => (c, f, [])
          | AwaitEnable _ => afterEnable o c
          | AwaitMetrics _ => afterMetrics v c
          | AwaitCapture _ => afterCapture v c
          end
      | None => (c, f, [])
      end
  | _ => (c, f, [])
  end.

(** What the socket reports. *)
Inductive Event :=
| WsOpen
| WsError (err : Error)
| WsMessage (parsed : option json)
| WsClose.

Record State := {
  conn : Conn;
  flow : Flow;
  settled : list (Z * Settlement);
}.

(** [let nextId = 1; const pending = new Map(); ... await openPromise] *)
Definition init : State :=
  {| conn := {| nextId := 1; pending := ∅; sent := []; closeCalled := false |};
     flow := Suspended AwaitOpen;
     settled := [] |}.

Definition finish (o : Opts) (s : State) (handled : Conn * list (Z * Settlement)) : State :=
  let '(c, news) := handled in
  let '(c', f, more) := resume o news c (flow s) in
  {| conn := c'; flow := f; settled := settled s ++ news ++ more |}.

(** One event: its handler, then the function as far as it can run.
    [open] and [error] settle [openPromise], which only the first of
    them does. *)
Definition step (o : Opts) (s : State) (ev : Event) : State :=
  match ev with
  | WsOpen =>
      match flow s with
      | Suspended AwaitOpen =>
          let '(c', f, _) := afterOpen (conn s) in
          {| conn := c'; flow := f; settled := settled s |}
      | _ => s
      end
  | WsError err =>
      match flow s with
      | Suspended AwaitOpen => {| conn := conn s; flow := Thrown err; settled := settled s |}
      | _ => s
      end
  | WsMessage parsed => finish o s (onMessage parsed (conn s))
  | WsClose => finish o s (closeWithError connectionClosed (conn s))
  end.

Definition run (o : Opts) (evs : list Event) : State := fold_left (step o) evs init.

(** The commands of one capture, in order. *)
Definition plan (o : Opts) : list string :=
  if requested o
  then ["Page.enable"; "Page.getLayoutMetrics"; "Page.captureScreenshot"]
  else ["Page.enable"; "Page.captureScreenshot"].

End Capture.

(** Any sequence of commands sent on one connection: the ids handed out
    and the connection afterwards. *)
Fixpoint sendAll (cmds : list (string * option CaptureParams)) (c : Conn)
  : list Z * Conn :=
  match cmds with
  | [] => ([], c)
  | (m, ps) :: rest =>
      let '(i, c') := send m ps c in
      let '(ids, c'') := sendAll rest c' in
      (i :: ids, c'')
  end.

(** A response frame for [p] that carries no error indication. *)
Definition answers (frame : option json) (p : Z) : Prop :=
  prop frame "id" = Some (JNum p)
  ∧ truthy (prop (prop frame "error") "message") = false.

(** What holds of the frames sent so far on a connection. *)
Definition numbered (c : Conn) : Prop :=
  nextId c = 1 + Z.of_nat (length (sent c))
  ∧ ∀ (k : nat) (m : Message), sent c !! k = Some m → id m = 1 + Z.of_nat k.

(** What holds between two events of a capture: the only pending command
    is the one the function awaits, which is the last one sent. *)
Definition between (o : Opts) (c : Conn) (f : Flow) : Prop :=
  match f with
  | Suspended AwaitOpen => pending c = ∅ ∧ sent c = []
  | Suspended (AwaitEnable p) =>
      pending c = {[ p := {| promise := p |} ]}
      ∧ method <$> sent c = ["Page.enable"]
      ∧ nextId c = p + 1
  | Suspended (AwaitMetrics p) =>
      pending c = {[ p := {| promise := p |} ]}
      ∧ requested o = true
      ∧ method <$> sent c = ["Page.enable"; "Page.getLayoutMetrics"]
      ∧ nextId c = p + 1
  | Suspended (AwaitCapture p) =>
      pending c = {[ p := {| promise := p |} ]}
      ∧ method <$> sent c = plan o
      ∧ nextId c = p + 1
  | ReturnsBufferFrom _ | Thrown _ =>
      pending c = ∅ ∧ (method <$> sent c) `prefix_of` plan o
  end.

Definition consistent (o : Opts) (s : State) : Prop :=
  numbered (conn s) ∧ between o (conn s) (flow s).

(** Frames of the scenarios of the spec. *)
Definition okFrame (i : Z) (result : json) : option json :=
  Some (JObj {[ "id" := JNum i; "result" := result ]}).

Definition viewportOnly : Opts := {| wsUrl := "ws://127.0.0.1:18791/devtools/page/1"; fullPage := None |}.
Definition wholePage : Opts := {| wsUrl := "ws://127.0.0.1:18791/devtools/page/1"; fullPage := Some true |}.

(** A connection with two commands pending at once, as [send] allows
    (a capture never has more than one). *)
Definition twoPending : State :=
  {| conn := (sendAll [("Page.enable", None); ("Page.getLayoutMetrics", None)]
                      (conn init)).2;
     flow := Suspended (AwaitMetrics 2);
     settled := [] |}.

(** [Number] on other values than numbers plays no role in them. *)
Definition notANumber (v : json) : option Z := None.

Definition flatMetrics : json :=
  JObj {[ "cssContentSize" := JObj {[ "width" := JNum 800; "height" := JNum 0 ]} ]}.

Definition tallMetrics : json :=
  JObj {[ "contentSize" := JObj {[ "width" := JNum 800; "height" := JNum 4000 ]} ]}.

(** An error frame for command [i]. *)
Definition errorFrame (i : Z) (message : string) : option json :=
  Some (JObj {[ "id" := JNum i; "error" := JObj {[ "message" := JStr message ]} ]}).

(** The function has returned or thrown. *)
Definition finished (f : Flow) : bool :=
  match f with
  | Suspended _ => false
  | ReturnsBufferFrom _ | Thrown _ => true
  end.

(** A response frame for [p] that carries the error message [m]. *)
Definition refuses (frame : option json) (p : Z) (m : json) : Prop :=
  prop frame "id" = Some (JNum p)
  ∧ prop (prop frame "error") "message" = Some m
  ∧ truthy (Some m) = true.

End Cdp.

(* ===================================================================== *)
(** ** Browser configuration: [resolveBrowserConfig] *)
(* ===================================================================== *)

Module Resolve.
Import Js Config.

(** [toLowerCase] on one code unit below 256: the ASCII capitals and the
    Latin-1 capitals (U+00C0 to U+00DE without the multiplication sign). *)
Definition lower (c : ascii) : ascii :=
  let n := code c in
  if ((65 <=? n) && (n <=? 90) || (192 <=? n) && (n <=? 222) && negb (n =? 215))%N
  then ascii_of_N (n + 32)
  else c.

Fixpoint toLowerCase (s : string) : string :=
  match s with
  | EmptyString => EmptyString
  | String c r => String (lower c) (toLowerCase r)
  end.

Definition isLoopbackHost (host : string) : bool :=
  let h := toLowerCase (trim host) in
  String.eqb h "localhost" || String.eqb h "127.0.0.1"
  || String.eqb h "[::1]" || String.eqb h "::1".

(** The longest run of decimal digits at the head of a string, as a
    number; [acc] is what has been read. *)
Fixpoint leadingDigits (s : string) (acc : option Z) : option Z :=
  match s with
  | EmptyString => acc
  | String c r =>
      if isDigit c
      then leadingDigits r (Some (10 * default 0 acc + (Z.of_N (code c) - 48)))
      else acc
  end.

(** [Number.parseInt(s, 10)]: leading white space is skipped, a sign is
    taken, the digits that follow are read; [None] is NaN. *)
Definition parseInt10 (s : string) : option Z :=
  match trimStart s with
  | String "-" r => Z.opp <$> leadingDigits r None
  | String "+" r => leadingDigits r None
  | r => leadingDigits r None
  end.

(** [s.replace(":", "")]: the first colon is removed. *)
Fixpoint removeFirstColon (s : string) : string :=
  match s with
  | EmptyString => EmptyString
  | String c r => if Ascii.eqb c ":" then r else String c (removeFirstColon r)
  end.

(** [s.replace(/\/$/, "")]: one slash at the very end is removed. *)
Fixpoint dropTrailingSlash (s : string) : string :=
  match s with
  | EmptyString => EmptyString
  | String c EmptyString => if Ascii.eqb c "/" then EmptyString else s
  | String c r => String c (dropTrailingSlash r)
  end.

(** The fields of the configuration that are read ([BrowserConfig] is
    declared outside the sources at hand). *)
Module BrowserConfig.
Record t := {
  enabled : option bool;
  controlUrl : option string;
  color : option string;
  headless : option bool;
  attachOnly : option bool;
}.
End BrowserConfig.

Record ResolvedBrowserConfig := {
  enabled : bool;
  controlUrl : string;
  controlHost : string;
  controlPort : Z;
  cdpPort : Z;
  color : string;
  headless : bool;
  attachOnly : bool;
}.

(** What [new URL(text)] exposes of a URL. *)
Record URL := {
  protocol : string;
  port : string;
  hostname : string;
  href : string;
}.

(** The errors thrown, with the values their messages quote. *)
Inductive ConfigError :=
| InvalidUrl (input : string)
| UnsupportedProtocol (scheme : string)
| InvalidPort (quoted : string)
| PortClash (controlPort cdpPort : Z).

Section ResolveBrowserConfig.

(** The constants of [constants.js] and the URL parser of the platform
    ([None] when the constructor throws). *)
Variable DEFAULT_CLAWD_BROWSER_ENABLED : bool.
Variable DEFAULT_CLAWD_BROWSER_CONTROL_URL : string.
Variable DEFAULT_CLAWD_BROWSER_CDP_PORT : Z.
Variable newURL : string -> option URL.

(** [x === true] for an optional flag. *)
Definition isTrue (flag : option bool) : bool :=
  match flag with
  | Some true => true
  | _ => false
  end.

(** [parsed.port && parseInt(parsed.port) > 0 ? parseInt(parsed.port)
     : parsed.protocol === "https:" ? 443 : 80]; [None] is NaN. *)
Definition portOf (parsed : URL) : option Z :=
  let given := parseInt10 (port parsed) in
  if negb (String.eqb (port parsed) "")
     && match given with Some n => 0 <? n | None => false end
  then given
  else if String.eqb (protocol parsed) "https:" then Some 443 else Some 80.

Definition resolveBrowserConfig (cfg : option BrowserConfig.t)
  : ConfigError + ResolvedBrowserConfig :=
  let enabled := default DEFAULT_CLAWD_BROWSER_ENABLED (cfg ≫= BrowserConfig.enabled) in
  let controlUrl :=
    trim (default DEFAULT_CLAWD_BROWSER_CONTROL_URL (cfg ≫= BrowserConfig.controlUrl)) in
  match newURL controlUrl with
  | None => inl (InvalidUrl controlUrl)
  | Some parsed =>
      if negb (String.eqb (protocol parsed) "http:")
         && negb (String.eqb (protocol parsed) "https:")
      then inl (UnsupportedProtocol (removeFirstColon (protocol parsed)))
      else
        match portOf parsed with
        | None => inl (InvalidPort (port parsed))
        | Some port' =>
            if (port' <=? 0) || (65535 <? port')
            then inl (InvalidPort (port parsed))
            else
              let cdpPort := DEFAULT_CLAWD_BROWSER_CDP_PORT in
              if port' =? cdpPort then inl (PortClash port' cdpPort)
              else
                inr {| enabled := enabled;
                       controlUrl := dropTrailingSlash (href parsed);
                       controlHost := hostname parsed;
                       controlPort := port';
                       cdpPort := cdpPort;
                       color := normalizeHexColor (cfg ≫= BrowserConfig.color);
                       headless := isTrue (cfg ≫= BrowserConfig.headless);
                       attachOnly := isTrue (cfg ≫= BrowserConfig.attachOnly) |}
        end
  end.

End ResolveBrowserConfig.

Definition shouldStartLocalBrowserServer (resolved : ResolvedBrowserConfig) : bool :=
  isLoopbackHost (controlHost resolved).

(** A URL parser for examples: it knows two addresses. *)
Definition sampleURL (text : string) : option URL :=
  if String.eqb text "http://127.0.0.1:18790"
  then Some {| protocol := "http:"; port := "18790"; hostname := "127.0.0.1";
               href := "http://127.0.0.1:18790/" |}
  else if String.eqb text "https://example.com:0"
  then Some {| protocol := "https:"; port := "0"; hostname := "example.com";
               href := "https://example.com:0/" |}
  else None.

End Resolve.

(* ===================================================================== *)
(** ** Process supervisor: [launchClawdChrome] *)
(* ===================================================================== *)

From Stdlib Require Import DecimalString.

Module Launch.
Import Js Chrome.

(** A number in a template literal: its decimal digits. *)
Definition numberText (n : Z) : string := NilZero.string_of_int (Z.to_int n).

(** What the launch meets while it runs: the answers of the operating
    system, the clock, the disk (which the browser writes to in the
    meantime) and the debug endpoint. *)
Record LaunchEnv := {
  portAvailable : bool;          (* [ensurePortAvailable] does not reject *)
  platform : string;             (* [process.platform] *)
  homedir : string;              (* [os.homedir()] *)
  disk : FileSystem;             (* the disk on entry *)
  diskAt : nat -> FileSystem;    (* at the i-th turn of the wait for the files *)
  diskThen : FileSystem;         (* when the profile is decorated *)
  stampNow : Z;                  (* [Date.now()] written to the marker *)
  startedAtNow : Z;              (* [Date.now()] read into [startedAt] *)
  filesStart : Z;                (* [Date.now()] the 5s deadline is counted from *)
  filesNowAt : nat -> Z;         (* [Date.now()] at the i-th test of that loop *)
  readyStart : Z;                (* [Date.now()] the 15s deadline is counted from *)
  readyNowAt : nat -> Z;         (* [Date.now()] at the i-th test of that loop *)
  answerAt : nat -> bool;        (* the i-th call of [isChromeReachable] *)
  pidOf : nat -> option Z;       (* [proc.pid] of the k-th process spawned *)
  exitCodeThen : option Z;       (* [proc.exitCode] of the process handed back *)
}.

Inductive LaunchError :=
| PortUnavailable (port : Z)
| NoBrowserFound
| Raised (e : string)
| LaunchTimeout (port : Z).

(** What a launch does, in order.  Processes are numbered as spawned. *)
Inductive Step :=
| Spawn (exePath : string) (args : list string)
| Signalled (process : nat) (s : Signal)
| Pause (ms : Z)
| Ask (answer : bool)
| Decorated (line : LogLine)
| Started (pid : Z).

Record Launched := {
  result : LaunchError + RunningChrome;
  steps : list Step;
}.

(** [exists(p)] on a disk. *)
Definition existsOn (fs : FileSystem) (p : string) : bool :=
  match (exists_ p fs).1 with
  | Returns found => found
  | Throws _ => false
  end.

Section LaunchClawdChrome.

(** [CONFIG_DIR] of [utils.js] and the profile name of [constants.js]. *)
Variable CONFIG_DIR : string.
Variable DEFAULT_CLAWD_BROWSER_PROFILE_NAME : string.

Definition resolveClawdUserDataDir : string :=
  path_join
    (path_join (path_join CONFIG_DIR "browser") DEFAULT_CLAWD_BROWSER_PROFILE_NAME)
    "user-data".

(** The arguments of [spawnOnce]. *)
Definition spawnArgs (resolved : Resolve.ResolvedBrowserConfig) (userDataDir : string)
  : list string :=
  ([ "--remote-debugging-port=" +:+ numberText (Resolve.cdpPort resolved);
     "--user-data-dir=" +:+ userDataDir;
     "--no-first-run";
     "--no-default-browser-check";
     "--disable-sync";
     "--disable-background-networking";
     "--disable-component-update";
     "--disable-features=Translate,MediaRouter";
     "--password-store=basic" ]
   ++ (if Resolve.headless resolved then ["--headless=new"; "--disable-gpu"] else [])
   ++ ["about:blank"])%list.

(** The wait for the browser to create its preference files: at most 5s,
    in turns of 100ms. *)
Fixpoint waitForFiles (fuel : nat) (env : LaunchEnv) (i : nat) (userDataDir : string)
  : option (list Step) :=
  match fuel with
  | O => None
  | S fuel' =>
      if filesNowAt env i <? filesStart env + 5000 then
        if existsOn (diskAt env i) (path_join userDataDir "Local State")
           && existsOn (diskAt env i)
                (path_join (path_join userDataDir "Default") "Preferences")
        then Some []
        else
          rest ← waitForFiles fuel' env (S i) userDataDir;
          Some (Pause 100 :: rest)
      else Some []
  end.

(** The wait for the debug endpoint: at most 15s, in turns of 200ms.
    The number handed back counts the probes made. *)
Fixpoint waitForEndpoint (fuel : nat) (env : LaunchEnv) (i : nat)
  : option (list Step * nat) :=
  match fuel with
  | O => None
  | S fuel' =>
      if readyNowAt env i <? readyStart env + 15000 then
        if answerAt env i then Some ([Ask true], S i)
        else
          rest ← waitForEndpoint fuel' env (S i);
          Some (Ask false :: Pause 200 :: rest.1, rest.2)
      else Some ([], i)
  end.

(** The decoration step, on the disk as it is then. *)
Definition decorationLine (env : LaunchEnv) (userDataDir : string) (color : string)
  : LogLine :=
  match (launchDecorate DEFAULT_CLAWD_BROWSER_PROFILE_NAME (stampNow env)
           userDataDir color (diskThen env)).1 with
  | Returns line => line
  | Throws e => LogWarn e
  end.

(** From the first spawn on. *)
Definition bringUp (fuel : nat) (env : LaunchEnv) (resolved : Resolve.ResolvedBrowserConfig)
    (exe : BrowserExecutable) (userDataDir : string) (needsDecorate : bool)
  : option Launched :=
  let spawnOnce := Spawn (path exe) (spawnArgs resolved userDataDir) in
  first ←
    (if needsDecorate then
       waited ← waitForFiles fuel env 0 userDataDir;
       Some ((waited
                ++ [Signalled 0 SIGTERM; Pause 300;
                    Decorated (decorationLine env userDataDir (Resolve.color resolved));
                    spawnOnce])%list, 1%nat)
     else Some ([], 0%nat));
  ready ← waitForEndpoint fuel env 0;
  let before := (spawnOnce :: first.1 ++ ready.1)%list in
  if negb (answerAt env ready.2) then
    Some {| result := inl (LaunchTimeout (Resolve.cdpPort resolved));
            steps := (before ++ [Ask false; Signalled first.2 SIGKILL])%list |}
  else
    let pid := default (-1) (pidOf env first.2) in
    Some {| result := inr {| pid := pid;
                             exe := exe;
                             userDataDir := userDataDir;
                             cdpPort := Resolve.cdpPort resolved;
                             startedAt := startedAtNow env;
                             proc := {| killed := false;
                                        exitCode := exitCodeThen env |} |};
            steps := (before ++ [Ask true; Started pid])%list |}.

(** Modelled from the spec: [ensurePortAvailable] of [infra/ports.js] is
    not among the sources; it fails when a listener occupies the port
    and has no effect otherwise. *)
Definition launchClawdChrome (fuel : nat) (env : LaunchEnv)
    (resolved : Resolve.ResolvedBrowserConfig) : option Launched :=
  if negb (portAvailable env) then
    Some {| result := inl (PortUnavailable (Resolve.cdpPort resolved)); steps := [] |}
  else
    let found :=
      if String.eqb (platform env) "darwin"
      then findChromeExecutableMac (homedir env) (disk env)
      else (Returns None, disk env) in
    match found with
    | (Throws e, _) => Some {| result := inl (Raised e); steps := [] |}
    | (Returns None, _) => Some {| result := inl NoBrowserFound; steps := [] |}
    | (Returns (Some exe), fs) =>
        let userDataDir := resolveClawdUserDataDir in
        match mkdirSync userDataDir fs with
        | (Throws e, _) => Some {| result := inl (Raised e); steps := [] |}
        | (Returns _, fs') =>
            let needsDecorate := negb (existsOn fs' (decoratedMarkerPath userDataDir)) in
            bringUp fuel env resolved exe userDataDir needsDecorate
        end
    end.

End LaunchClawdChrome.

(** The processes a launch spawned. *)
Definition spawned (l : list Step) : list (string * list string) :=
  omap (fun s => match s with
                 | Spawn exePath args => Some (exePath, args)
                 | _ => None
                 end) l.

(** [n] pauses of [ms]. *)
Definition pauses (n : nat) (ms : Z) : list Step := replicate n (Pause ms).

(** A machine with the stable browser, a profile decorated before, and
    an endpoint that answers at the third probe. *)
Definition sampleResolved : Resolve.ResolvedBrowserConfig :=
  {| Resolve.enabled := true;
     Resolve.controlUrl := "http://127.0.0.1:18790";
     Resolve.controlHost := "127.0.0.1";
     Resolve.controlPort := 18790;
     Resolve.cdpPort := 18791;
     Resolve.color := "#FF4500";
     Resolve.headless := true;
     Resolve.attachOnly := false |}.

Definition decoratedDisk : FileSystem :=
  {| files := {[ stableSystemPath := Unparsable;
                 "/cfg/browser/clawd/user-data/.clawd-profile-decorated"
                   := Encodes (JNum 1) ]};
     faulty := fun _ _ => false |}.

Definition sampleEnv (fs : FileSystem) : LaunchEnv :=
  {| portAvailable := true;
     platform := "darwin";
     homedir := "/Users/me";
     disk := fs;
     diskAt := fun _ => fs;
     diskThen := fs;
     stampNow := 7;
     startedAtNow := 1000;
     filesStart := 1000;
     filesNowAt := fun i => 1000 + 100 * Z.of_nat i;
     readyStart := 1000;
     readyNowAt := fun i => 1000 + 200 * Z.of_nat i;
     answerAt := fun i => (2 <=? i)%nat;
     pidOf := fun _ => Some 4242;
     exitCodeThen := None |}.

(** The decorations a launch made. *)
Definition decorations (l : list Step) : list LogLine :=
  omap (fun s => match s with
                 | Decorated line => Some line
                 | _ => None
                 end) l.

(** An argument that is an option: it starts with two dashes. *)
Definition isOption (arg : string) : bool :=
  match arg with
  | String "-" (String "-" _) => true
  | _ => false
  end.

End Launch.

(* ===================================================================== *)
(** * Theorems *)
(* ===================================================================== *)

(** ** Colour normalisation *)

Section ConfigFacts.
Import Js Config.

Lemma marker_cases (c : ascii) (r : string) :
  validColor (String c r)
  = (if Ascii.eqb c "#" then sixHexDigits r else sixHexDigits (String c r))
  ∧ colorDigits (String c r) = (if Ascii.eqb c "#" then r else String c r)
  ∧ testHexColor (String c r)
    = (if Ascii.eqb c "#" then sixHexDigits r else false).
Proof.
  destruct c as [[] [] [] [] [] [] [] []]; repeat split; reflexivity.
Qed.

Lemma upper_hex (c : ascii) :
  isHexDigit c = true → isDigit (upper c) || isUpperHex (upper c) = true.
Proof.
  destruct c as [[] [] [] [] [] [] [] []]; vm_compute; congruence.
Qed.

Lemma toUpperCase_length (s : string) :
  String.length (toUpperCase s) = String.length s.
Proof. induction s as [|c r IH]; simpl; congruence. Qed.

Lemma toUpperCase_hex (s : string) :
  allChars isHexDigit s = true →
  allChars (fun c => isDigit c || isUpperHex c) (toUpperCase s) = true.
Proof.
  induction s as [|c r IH]; simpl; [done|].
  intros [Hc Hr]%andb_true_iff.
  rewrite (upper_hex c Hc). simpl. auto.
Qed.

Lemma sixHexDigits_upper (s : string) :
  sixHexDigits s = true → isUpperColor (String "#" (toUpperCase s)) = true.
Proof.
  unfold sixHexDigits. intros [Hlen Hhex]%andb_true_iff.
  cbn [isUpperColor]. change (isUpperColor (String "#" (toUpperCase s)))
    with ((String.length (toUpperCase s) =? 6)%nat
          && allChars (fun c => isDigit c || isUpperHex c) (toUpperCase s)).
  rewrite toUpperCase_length, Hlen, (toUpperCase_hex s Hhex). reflexivity.
Qed.

(** C9, as stated, fails: a colour padded with white space has the wrong
    length and characters that are no hex digits, yet it is normalised,
    not replaced by the default. *)
Lemma normalizeHexColor_padded_counterexample :
  validColor " 00ff00" = false
  ∧ normalizeHexColor (Some " 00ff00") = "#00FF00"
  ∧ normalizeHexColor (Some " 00ff00") ≠ DEFAULT_CLAWD_BROWSER_COLOR.
Proof. repeat split; vm_compute; congruence. Qed.

(** C9, amended: validity is judged after trimming white space.  An input
    whose trimmed form is six hex digits, with or without the leading
    [#], yields [#] followed by those digits in upper case; every other
    input, the absent one included, yields the default colour; and the
    result always has the upper-case [#RRGGBB] shape. *)
Theorem normalizeHexColor_trimmed (raw : option string) :
  let value := trim (default "" raw) in
  normalizeHexColor raw
  = (if validColor value
     then String "#" (toUpperCase (colorDigits value))
     else DEFAULT_CLAWD_BROWSER_COLOR)
  ∧ isUpperColor (normalizeHexColor raw) = true.
Proof.
  intros value. unfold normalizeHexColor. fold value.
  destruct value as [|c r]; [split; reflexivity|].
  change (String.eqb (String c r) "") with false. cbv iota.
  destruct (marker_cases c r) as (Hv & Hd & _).
  rewrite Hv, Hd.
  change (startsWith (String c r) "#") with (Ascii.eqb "#" c).
  rewrite (Ascii.eqb_sym "#" c).
  destruct (Ascii.eqb_spec c "#") as [->|Hne].
  - destruct (marker_cases "#" r) as (_ & _ & Ht). rewrite Ht. simpl Ascii.eqb.
    cbv iota. destruct (sixHexDigits r) eqn:Hr; simpl negb; cbv iota.
    + split; [reflexivity|]. apply (sixHexDigits_upper r Hr).
    + split; reflexivity.
  - destruct (marker_cases "#" (String c r)) as (_ & _ & Ht). rewrite Ht.
    simpl Ascii.eqb. cbv iota.
    destruct (sixHexDigits (String c r)) eqn:Hr; simpl negb; cbv iota.
    + split; [reflexivity|]. apply (sixHexDigits_upper _ Hr).
    + split; reflexivity.
Qed.

Example trim_tests :
  trim "  #ff4500 " = "#ff4500"
  ∧ trim (String (ascii_of_N 9) (String (ascii_of_N 160) "a b")) = "a b"
  ∧ trim "   " = "".
Proof. repeat split; reflexivity. Qed.

(** The behaviour the unit tests pin down. *)
Example normalizeHexColor_tests :
  normalizeHexColor None = "#FF4500"
  ∧ normalizeHexColor (Some "ff4500") = "#FF4500"
  ∧ normalizeHexColor (Some "#GGGGGG") = "#FF4500"
  ∧ normalizeHexColor (Some "#12ab9f") = "#12AB9F"
  ∧ normalizeHexColor (Some "12345") = "#FF4500".
Proof. repeat split; reflexivity. Qed.

End ConfigFacts.

(** ** Executable locator *)

Section LocatorFacts.
Import Js Chrome.

Lemma exists_present (p : string) (fs : FileSystem) :
  exists_ p fs = (Returns (present fs p), fs).
Proof. reflexivity. Qed.

Lemma firstExisting_find (cs : list BrowserExecutable) (fs : FileSystem) :
  firstExisting cs fs = (Returns (List.find (fun c => present fs (path c)) cs), fs).
Proof.
  induction cs as [|c cs IH]; [reflexivity|].
  cbn [firstExisting List.find]. unfold bind at 1. rewrite exists_present.
  destruct (present fs (path c)); [reflexivity|apply IH].
Qed.

Lemma find_first {A} (f : A → bool) (l : list A) (a : A) :
  List.find f l = Some a →
  ∃ before after, l = (before ++ a :: after)%list ∧ f a = true
                  ∧ Forall (fun b => f b = false) before.
Proof.
  induction l as [|b l IH]; [discriminate|]. simpl.
  destruct (f b) eqn:Hb.
  - intros [= ->]. exists [], l. auto.
  - intros (before & after & -> & Ha & Hbefore)%IH.
    exists (b :: before), after. auto.
Qed.

Lemma find_absent {A} (f : A → bool) (l : list A) :
  List.find f l = None ↔ Forall (fun b => f b = false) l.
Proof.
  induction l as [|b l IH]; simpl.
  - split; [constructor|done].
  - destruct (f b) eqn:Hb.
    + split; [discriminate|]. intros H. inversion H; congruence.
    + rewrite IH. split; [by constructor|]. intros H. by inversion H.
Qed.

(** C8.  The locator never fails and leaves the file system alone.  Its
    candidates are canary, then chromium (the open-source build), then
    chrome (the stable release), each at the system-wide location and
    then under the home directory; it returns the first candidate whose
    path exists, and nothing when none exists.  When no canary or
    chromium path exists and the system-wide stable path does, that path
    is returned with kind [chrome]. *)
Theorem findChromeExecutableMac_first_existing (homedir : string) (fs : FileSystem) :
  ∃ found,
    findChromeExecutableMac homedir fs = (Returns found, fs)
    ∧ map kind (candidates homedir)
      = [canary; canary; chromium; chromium; chrome; chrome]
    ∧ (∃ sys1 rel1 sys2 rel2 sys3 rel3,
         map path (candidates homedir)
         = [String "/" sys1; path_join homedir rel1;
            String "/" sys2; path_join homedir rel2;
            String "/" sys3; path_join homedir rel3])
    ∧ match found with
      | Some c =>
          ∃ before after,
            candidates homedir = (before ++ c :: after)%list
            ∧ present fs (path c) = true
            ∧ Forall (fun b => present fs (path b) = false) before
      | None => Forall (fun b => present fs (path b) = false) (candidates homedir)
      end
    ∧ (Forall (fun b => kind b = chrome ∨ present fs (path b) = false)
              (candidates homedir) →
       present fs stableSystemPath = true →
       found = Some {| kind := chrome; path := stableSystemPath |}).
Proof.
  unfold findChromeExecutableMac. rewrite firstExisting_find.
  eexists. split; [reflexivity|]. split; [reflexivity|].
  split; [by repeat eexists|]. split.
  - destruct (List.find _ _) as [c|] eqn:Hfind.
    + by apply find_first in Hfind.
    + by apply find_absent in Hfind.
  - intros Hothers Hstable. unfold candidates in *.
    repeat match goal with
           | H : Forall _ (_ :: _) |- _ => apply Forall_cons_1 in H as [[?|?] H]
           end; try discriminate.
    all: cbn [List.find path] in *; unfold stableSystemPath in *.
    all: try congruence.
    all: repeat match goal with
                | H : present _ _ = false |- _ => rewrite ?H; clear H
                end.
    all: by rewrite Hstable.
Qed.

Lemma findChromeExecutableMac_first_existing_witness :
  findChromeExecutableMac "/Users/me" onlyStable
  = (Returns (Some {| kind := chrome; path := stableSystemPath |}), onlyStable).
Proof.
  destruct (findChromeExecutableMac_first_existing "/Users/me" onlyStable)
    as (found & Hrun & _ & _ & _ & Honly).
  rewrite Hrun. rewrite Honly; [reflexivity| |reflexivity].
  repeat constructor; by vm_compute.
Defined.

Example path_tests :
  path_dirname (path_join "/profile" "Local State") = "/profile"
  ∧ path_dirname (path_join (path_join "/profile" "Default") "Preferences")
    = "/profile/Default"
  ∧ path_dirname "/etc" = "/"
  ∧ path_dirname "file" = ".".
Proof. repeat split; reflexivity. Qed.

(** Scenario A of the spec, run. *)
Example locator_scenario_A :
  fst (findChromeExecutableMac "/Users/me" onlyStable)
  = Returns (Some {| kind := chrome; path := stableSystemPath |})
  ∧ fst (findChromeExecutableMac "/Users/me" nothingInstalled) = Returns None.
Proof. split; reflexivity. Qed.

End LocatorFacts.

(** ** Deep set *)

Section SetDeepFacts.
Import Js Chrome.

Lemma inherited_other (obj : gmap string json) (key : string) :
  key ≠ "__proto__" → inherited obj key = false.
Proof. intros Hkey. unfold inherited. by rewrite (proj2 (String.eqb_neq _ _) Hkey). Qed.

Lemma inherited_own (obj : gmap string json) (key : string) (v : json) :
  obj !! key = Some v → inherited obj key = false.
Proof. intros Hv. unfold inherited. rewrite Hv. apply andb_false_r. Qed.

Lemma setDeep_last (obj : gmap string json) (key : string) (value : json) :
  inherited obj key = false →
  setDeep obj [key] value = {| tree := <[ key := value ]> obj; reach := Tree |}.
Proof. intros Hown. cbn [setDeep]. by rewrite Hown. Qed.

Lemma setDeep_cons (obj : gmap string json) (key : string) (rest : list string)
    (value : json) :
  rest ≠ [] →
  inherited obj key = false →
  setDeep obj (key :: rest) value
  = {| tree := <[ key := JObj (tree (setDeep (nextNode obj key) rest value)) ]> obj;
       reach := reach (setDeep (nextNode obj key) rest value) |}.
Proof. intros Hrest Hown. destruct rest; [done|]. cbn [setDeep]. by rewrite Hown. Qed.

(** On the way into [Object.prototype] the tree stays as it is. *)
Lemma setDeep_inherited (obj : gmap string json) (key : string) (rest : list string)
    (value : json) :
  inherited obj key = true → tree (setDeep obj (key :: rest) value) = obj.
Proof. intros Hproto. destruct rest; cbn [setDeep]; by rewrite Hproto. Qed.

(** A path without [__proto__] stays on own properties. *)
Lemma setDeep_own (keys : list string) :
  "__proto__" ∉ keys →
  ∀ (obj : gmap string json) (value : json), reach (setDeep obj keys value) = Tree.
Proof.
  induction keys as [|key rest IH]; intros Hkeys obj value; [done|].
  apply not_elem_of_cons in Hkeys as [Hkey Hrest].
  destruct rest as [|key' rest].
  - by rewrite setDeep_last by (apply inherited_other; congruence).
  - rewrite setDeep_cons by (done || apply inherited_other; congruence).
    by apply IH.
Qed.

Lemma setDeep_other_key (obj : gmap string json) (key other : string)
    (rest : list string) (value : json) :
  key ≠ other → tree (setDeep obj (key :: rest) value) !! other = obj !! other.
Proof.
  intros Hne. destruct (inherited obj key) eqn:Hproto.
  - by rewrite setDeep_inherited.
  - destruct rest.
    + rewrite setDeep_last by done. by apply lookup_insert_ne.
    + rewrite setDeep_cons by done. by apply lookup_insert_ne.
Qed.

Lemma getPath_not_object (v : json) (keys : list string) :
  keys ≠ [] → isPlainObject (Some v) = false → getPath v keys = None.
Proof. destruct keys; [done|]. by destruct v. Qed.

Lemma getPath_empty (keys : list string) : keys ≠ [] → getPath (JObj ∅) keys = None.
Proof. destruct keys; [done|]. intros _. cbn. by rewrite lookup_empty. Qed.

Lemma getPath_nextNode (obj : gmap string json) (key : string) (keys : list string) :
  keys ≠ [] →
  getPath (JObj (nextNode obj key)) keys = getPath (JObj obj) (key :: keys).
Proof.
  intros Hne. unfold nextNode. cbn [getPath].
  destruct (obj !! key) as [v|] eqn:Hv; cbn.
  - destruct v; try (by rewrite getPath_empty, ?getPath_not_object); done.
  - by rewrite getPath_empty.
Qed.

Lemma setDeep_binds (keys : list string) :
  keys ≠ [] →
  "__proto__" ∉ keys →
  ∀ (obj : gmap string json) (value : json),
    getPath (JObj (tree (setDeep obj keys value))) keys = Some value.
Proof.
  induction keys as [|key rest IH]; [done|]. intros _ Hkeys obj value.
  apply not_elem_of_cons in Hkeys as [Hkey Hrest].
  assert (inherited obj key = false) as Hown by (apply inherited_other; congruence).
  destruct rest as [|key' rest].
  - rewrite setDeep_last by done. cbn. by rewrite lookup_insert_eq.
  - rewrite setDeep_cons by done. cbn [getPath tree].
    rewrite lookup_insert_eq. cbn [mbind option_bind]. by apply IH.
Qed.

Lemma setDeep_frame (pre : list string) :
  ∀ (obj : gmap string json) (k k' : string) (rest rest' : list string) (value : json),
    k ≠ k' →
    getPath (JObj (tree (setDeep obj (pre ++ k :: rest) value))) (pre ++ k' :: rest')
    = getPath (JObj obj) (pre ++ k' :: rest').
Proof.
  induction pre as [|a pre IH]; intros obj k k' rest rest' value Hne.
  - cbn [app getPath]. by rewrite setDeep_other_key.
  - rewrite <- !app_comm_cons. destruct (inherited obj a) eqn:Hproto.
    { by rewrite setDeep_inherited. }
    rewrite setDeep_cons by (done || by destruct pre).
    cbn [getPath tree]. rewrite lookup_insert_eq. cbn [mbind option_bind].
    rewrite IH by done. rewrite getPath_nextNode by by destruct pre.
    reflexivity.
Qed.

Lemma setDeep_replaces (pre : list string) :
  ∀ (obj : gmap string json) (k : string) (rest : list string) (value : json),
    rest ≠ [] →
    "__proto__" ∉ (pre ++ [k])%list →
    getPath (JObj (tree (setDeep obj (pre ++ k :: rest) value))) (pre ++ [k])
    = Some (JObj (tree (setDeep
                          (match getPath (JObj obj) (pre ++ [k]) with
                           | Some (JObj fields) => fields
                           | _ => ∅
                           end) rest value))).
Proof.
  induction pre as [|a pre IH]; intros obj k rest value Hrest Hkeys.
  - cbn [app] in *. apply not_elem_of_cons in Hkeys as [Hk _].
    rewrite setDeep_cons by (done || apply inherited_other; congruence).
    cbn [getPath tree].
    rewrite lookup_insert_eq. cbn [mbind option_bind]. unfold nextNode.
    by destruct (obj !! k).
  - rewrite <- !app_comm_cons in *. apply not_elem_of_cons in Hkeys as [Ha Hkeys].
    rewrite setDeep_cons
      by ((by destruct pre) || apply inherited_other; congruence).
    rewrite <- (getPath_nextNode obj a (pre ++ [k])) by by destruct pre.
    cbn [getPath tree]. rewrite lookup_insert_eq. cbn [mbind option_bind].
    by apply IH.
Qed.

(** A call that wrote own properties only met [__proto__], if at all, as
    an own property. *)
Lemma reach_tree_head (obj : gmap string json) (key : string) (rest : list string)
    (value : json) :
  reach (setDeep obj (key :: rest) value) = Tree → inherited obj key = false.
Proof.
  destruct (inherited obj key) eqn:Hproto; [|done].
  destruct rest; cbn [setDeep]; rewrite Hproto; cbn [reach]; [|done].
  by destruct value.
Qed.

Lemma reach_tree_rest (obj : gmap string json) (key : string) (rest : list string)
    (value : json) :
  rest ≠ [] →
  reach (setDeep obj (key :: rest) value) = Tree →
  reach (setDeep (nextNode obj key) rest value) = Tree.
Proof.
  intros Hrest Hown. pose proof (reach_tree_head _ _ _ _ Hown) as Hkey.
  by rewrite setDeep_cons in Hown.
Qed.

Lemma ownProto_free (obj : gmap string json) (keys : list string) :
  "__proto__" ∉ keys → ownProto obj keys.
Proof.
  intros Hfree pre rest ->. destruct Hfree.
  rewrite elem_of_app. right. constructor.
Qed.

Lemma ownProto_reach (keys : list string) :
  ∀ (obj : gmap string json) (value : json),
    ownProto obj keys → reach (setDeep obj keys value) = Tree.
Proof.
  induction keys as [|key rest IH]; intros obj value Hown; [done|].
  assert (inherited obj key = false) as Hkey.
  { unfold inherited. destruct (String.eqb_spec key "__proto__") as [->|]; [|done].
    destruct (Hown [] rest eq_refl) as [v Hv]. cbn in Hv.
    destruct (obj !! "__proto__"); [apply andb_false_r|done]. }
  destruct rest as [|key' rest].
  - by rewrite setDeep_last.
  - rewrite setDeep_cons by done. cbn [reach]. apply IH.
    intros pre rest' Hrest. rewrite getPath_nextNode by by destruct pre.
    apply (Hown (key :: pre) rest'). by rewrite Hrest.
Qed.

Lemma setDeep_binds_own (keys : list string) :
  keys ≠ [] →
  ∀ (obj : gmap string json) (value : json),
    reach (setDeep obj keys value) = Tree →
    getPath (JObj (tree (setDeep obj keys value))) keys = Some value.
Proof.
  induction keys as [|key rest IH]; [done|]. intros _ obj value Hown.
  pose proof (reach_tree_head _ _ _ _ Hown) as Hkey.
  destruct rest as [|key' rest].
  - rewrite setDeep_last by done. cbn. by rewrite lookup_insert_eq.
  - apply reach_tree_rest in Hown; [|done].
    rewrite setDeep_cons by done. cbn [getPath tree].
    rewrite lookup_insert_eq. cbn [mbind option_bind]. by apply IH.
Qed.

Lemma setDeep_replaces_own (pre : list string) :
  ∀ (obj : gmap string json) (k : string) (rest : list string) (value : json),
    rest ≠ [] →
    reach (setDeep obj (pre ++ k :: rest) value) = Tree →
    getPath (JObj (tree (setDeep obj (pre ++ k :: rest) value))) (pre ++ [k])
    = Some (JObj (tree (setDeep
                          (match getPath (JObj obj) (pre ++ [k]) with
                           | Some (JObj fields) => fields
                           | _ => ∅
                           end) rest value))).
Proof.
  induction pre as [|a pre IH]; intros obj k rest value Hrest Hown.
  - cbn [app] in *. rewrite setDeep_cons by (done || by eapply reach_tree_head).
    cbn [getPath tree].
    rewrite lookup_insert_eq. cbn [mbind option_bind]. unfold nextNode.
    by destruct (obj !! k).
  - rewrite <- !app_comm_cons in *.
    pose proof (reach_tree_head _ _ _ _ Hown) as Ha.
    apply reach_tree_rest in Hown; [|by destruct pre].
    rewrite setDeep_cons by (done || by destruct pre).
    rewrite <- (getPath_nextNode obj a (pre ++ [k])) by by destruct pre.
    cbn [getPath tree]. rewrite lookup_insert_eq. cbn [mbind option_bind].
    by apply IH.
Qed.

(** The ways of [__proto__], run on the model: a property set for all
    objects, the [TypeError] of [Object.prototype], an object shared
    through [Object.prototype] on the way, and a prototype replaced. *)
Example setDeep_pollutes :
  setDeep ∅ ["__proto__"; "polluted"] (JBool true)
  = {| tree := ∅;
       reach := ObjectPrototype (SharedSets {[ "polluted" := JBool true ]} None) |}.
Proof. reflexivity. Qed.

Example setDeep_throws :
  reach (setDeep ∅ ["__proto__"; "__proto__"] (JObj ∅)) = ObjectPrototype SharedThrows
  ∧ reach (setDeep ∅ ["__proto__"; "__proto__"; "x"] (JNum 1))
    = ObjectPrototype SharedThrows.
Proof. split; reflexivity. Qed.

Example setDeep_shares :
  reach (setDeep ∅ ["__proto__"; "a"; "x"; "a"; "b"] (JNum 1))
  = ObjectPrototype
      (SharedSets {[ "a" := JObj {[ "x" := JObj ∅; "b" := JNum 1 ]} ]} None).
Proof. by vm_compute. Qed.

Example setDeep_reparents :
  setDeep ∅ ["a"; "__proto__"] (JObj {[ "b" := JNum 1 ]})
  = {| tree := {[ "a" := JObj ∅ ]};
       reach := Prototype (JObj {[ "b" := JNum 1 ]}) |}.
Proof. reflexivity. Qed.

(** C7, as stated, fails at the key [__proto__]: it is no own property
    of an object that [JSON.parse] or [{}] made, so the assignment goes
    to the accessor of [Object.prototype], which ignores a string.
    Nothing is bound at the end of the path. *)
Lemma setDeep_proto_counterexample :
  setDeep ∅ ["__proto__"] (JStr "clawd") = {| tree := ∅; reach := Ignored |}
  ∧ getPath (JObj (tree (setDeep ∅ ["__proto__"] (JStr "clawd")))) ["__proto__"] = None
  ∧ ¬ (∀ (obj : gmap string json) (keys : list string) (value : json),
         keys ≠ [] →
         getPath (JObj (tree (setDeep obj keys value))) keys = Some value).
Proof.
  assert (getPath (JObj (tree (setDeep ∅ ["__proto__"] (JStr "clawd")))) ["__proto__"]
          = None) as Hnone by reflexivity.
  split; [reflexivity|]. split; [exact Hnone|].
  intros Hall. rewrite (Hall ∅ ["__proto__"] (JStr "clawd")) in Hnone; discriminate.
Qed.

(** C7, amended.  Take a path that is not empty and on which
    [__proto__], where it occurs, names an own property; every path
    without that key is one.  Then [setDeep] writes own properties of
    the tree only, and: reading the path back gives the value; reading
    any path that parts ways with it gives what it gave before, so that
    at every level the keys off the path keep their values; and a key
    that is traversed (it is on the path, not last) ends up bound to an
    object, namely the one it held with the rest of the path set in it,
    or, when it held no plain object (nothing, null, an array, a number,
    ...), the empty object with the rest of the path set in it. *)
Theorem setDeep_merges (obj : gmap string json) (keys : list string) (value : json) :
  keys ≠ [] →
  "__proto__" ∉ keys ∨ ownProto obj keys →
  reach (setDeep obj keys value) = Tree
  ∧ getPath (JObj (tree (setDeep obj keys value))) keys = Some value
  ∧ (∀ k, hd_error keys ≠ Some k → tree (setDeep obj keys value) !! k = obj !! k)
  ∧ (∀ other, partWays keys other →
       getPath (JObj (tree (setDeep obj keys value))) other = getPath (JObj obj) other)
  ∧ (∀ pre k rest, keys = (pre ++ k :: rest)%list → rest ≠ [] →
       getPath (JObj (tree (setDeep obj keys value))) (pre ++ [k])
       = Some (JObj (tree (setDeep
                             (if isPlainObject (getPath (JObj obj) (pre ++ [k]))
                              then match getPath (JObj obj) (pre ++ [k]) with
                                   | Some (JObj fields) => fields
                                   | _ => ∅
                                   end
                              else ∅) rest value)))).
Proof.
  intros Hkeys Hproto.
  assert (reach (setDeep obj keys value) = Tree) as Hown.
  { apply ownProto_reach. destruct Hproto as [Hfree|Hown]; [|exact Hown].
    by apply ownProto_free. }
  split; [exact Hown|]. split; [by apply setDeep_binds_own|]. split; [|split].
  - intros k Hk. destruct keys as [|key rest]; [done|].
    apply setDeep_other_key. cbn in Hk. congruence.
  - intros other (pre & k & k' & rest & rest' & Hne & -> & ->).
    by apply setDeep_frame.
  - intros pre k rest -> Hrest. rewrite setDeep_replaces_own by done.
    by destruct (getPath (JObj obj) (pre ++ [k])) as [[]|].
Qed.

Lemma setDeep_merges_witness :
  getPath (JObj (tree (setDeep samplePrefs ["profile"; "name"] (JStr "clawd"))))
          ["profile"; "name"] = Some (JStr "clawd")
  ∧ tree (setDeep samplePrefs ["profile"; "name"] (JStr "clawd")) !! "browser"
    = samplePrefs !! "browser"
  ∧ getPath (JObj (tree (setDeep samplePrefs ["profile"; "name"] (JStr "clawd"))))
            ["profile"]
    = Some (JObj {[ "name" := JStr "clawd" ]}).
Proof.
  destruct (setDeep_merges samplePrefs ["profile"; "name"] (JStr "clawd"))
    as (_ & Hset & Hkeep & _ & Hrepl);
    [discriminate|left; by apply (bool_decide_unpack _); vm_compute|].
  split; [exact Hset|]. split.
  - apply Hkeep. discriminate.
  - exact (Hrepl [] "profile" ["name"] eq_refl ltac:(discriminate)).
Defined.

End SetDeepFacts.

(** ** Profile brander *)

Section BranderFacts.
Import Js Chrome.

Lemma safeReadJson_total (filePath : string) (fs : FileSystem) :
  ∃ read, safeReadJson filePath fs = (Returns read, fs).
Proof.
  unfold safeReadJson, tryCatch, bind. rewrite exists_present.
  destruct (present fs filePath); cbn [negb]; [|by eexists].
  unfold readFileSync. destruct (faulty fs OpRead filePath); [by eexists|].
  destruct (files fs !! filePath) as [[|j]|]; cbn; try by eexists.
  destruct (isObjectType j); by eexists.
Qed.

Lemma safeWriteJson_outcome (filePath : string) (data : json) (fs : FileSystem) :
  ∃ fs',
    faulty fs' = faulty fs
    ∧ safeWriteJson filePath data fs
      = (if negb (faulty fs OpMkdir (path_dirname filePath))
            && negb (faulty fs OpWrite filePath)
         then Returns tt else Throws "EACCES", fs').
Proof.
  unfold safeWriteJson, bind, mkdirSync, writeFileSync.
  destruct (faulty fs OpMkdir _); [by eexists|].
  destruct (faulty fs OpWrite _); eexists; (split; [|cbn; reflexivity]); reflexivity.
Qed.

Lemma decorate_outcome (name : string) (now : Z) (userDataDir : string)
    (opts : option DecorateOpts) (fs : FileSystem) :
  fst (decorateClawdProfile name now userDataDir opts fs)
  = if prefsWritable fs userDataDir then Returns tt else Throws "EACCES".
Proof.
  unfold decorateClawdProfile, prefsWritable. cbv zeta.
  unfold bind at 1.
  destruct (safeReadJson_total (path_join userDataDir "Local State") fs) as [r1 ->].
  unfold bind at 1.
  match goal with
  | |- context [safeWriteJson ?p ?d fs] =>
      destruct (safeWriteJson_outcome p d fs) as (fs1 & Hf1 & ->)
  end.
  destruct (negb (faulty fs OpMkdir _) && negb (faulty fs OpWrite _));
    [|reflexivity].
  unfold bind at 1.
  destruct (safeReadJson_total
              (path_join (path_join userDataDir "Default") "Preferences") fs1)
    as [r2 ->].
  unfold bind at 1.
  match goal with
  | |- context [safeWriteJson ?p ?d fs1] =>
      destruct (safeWriteJson_outcome p d fs1) as (fs2 & Hf2 & ->)
  end.
  rewrite Hf1. cbn [andb].
  destruct (negb (faulty fs OpMkdir _) && negb (faulty fs OpWrite _));
    [|reflexivity].
  unfold tryCatch, writeFileSync, ret.
  by destruct (faulty fs2 OpWrite _).
Qed.

(** C2, as stated, fails: where the volume takes no writes,
    [decorateClawdProfile] throws to its caller. *)
Lemma decorateClawdProfile_throws_counterexample :
  fst (decorateClawdProfile "clawd" 0 "/profile" None readOnlyVolume) = Throws "EACCES"
  ∧ ¬ (∀ name now userDataDir opts fs,
         ∃ fs', decorateClawdProfile name now userDataDir opts fs = (Returns tt, fs')).
Proof.
  assert (fst (decorateClawdProfile "clawd" 0 "/profile" None readOnlyVolume)
          = Throws "EACCES") as Hthrows by (by vm_compute).
  split; [exact Hthrows|].
  intros Hnever.
  destruct (Hnever "clawd" 0 "/profile" None readOnlyVolume) as [fs' Hret].
  rewrite Hret in Hthrows. discriminate.
Qed.

(** C2, amended.  [decorateClawdProfile] swallows every failure to read
    or parse the two preference files and the failure to write the
    marker: it returns normally exactly when the two preference files
    can be written, and throws when creating the directory of, or
    writing, either of them raises.  The launch sequence, which is its
    caller, catches that error and logs a warning, so the decoration step
    of the launch always returns normally. *)
Theorem decorateClawdProfile_best_effort (name : string) (now : Z)
    (userDataDir : string) (opts : option DecorateOpts) (color : string)
    (fs : FileSystem) :
  fst (decorateClawdProfile name now userDataDir opts fs)
  = (if prefsWritable fs userDataDir then Returns tt else Throws "EACCES")
  ∧ fst (launchDecorate name now userDataDir color fs)
    = Returns (if prefsWritable fs userDataDir then LogInfo else LogWarn "EACCES").
Proof.
  split; [apply decorate_outcome|].
  unfold launchDecorate, tryCatch, bind.
  pose proof (decorate_outcome name now userDataDir
                (Some {| color := Some color |}) fs) as Hout.
  destruct (decorateClawdProfile _ _ _ _ fs) as [[[]|e] fs']; cbn [fst] in Hout;
    destruct (prefsWritable fs userDataDir); try discriminate; [reflexivity|].
  injection Hout as ->. reflexivity.
Qed.

(** Unreadable files and an unwritable marker do not make it throw. *)
Example decorateClawdProfile_swallows_reads :
  fst (decorateClawdProfile "clawd" 0 "/profile" None unreadableProfile) = Returns tt.
Proof. by vm_compute. Qed.

End BranderFacts.

(** ** Shutdown *)

Section ShutdownFacts.
Import Chrome.

Lemma stopClawdChrome_already_signalled (fuel : nat) (env : StopEnv)
    (running : RunningChrome) (timeoutMs : Z) :
  killed (proc running) = true →
  stopClawdChrome fuel env running timeoutMs = Some [].
Proof. unfold stopClawdChrome. by intros ->. Qed.

(** The loop ends when the clock advances with every turn. *)
Lemma poll_returns (env : StopEnv) (timeoutMs : Z) (isKilled : bool) :
  (∀ i, startNow env + 100 * Z.of_nat i ≤ nowAt env i) →
  ∀ (fuel i : nat),
    (0 < fuel)%nat →
    timeoutMs ≤ 100 * (Z.of_nat i + Z.of_nat fuel - 1) →
    is_Some (poll fuel env i timeoutMs isKilled).
Proof.
  intros Hclock fuel. induction fuel as [|fuel IH]; intros i Hpos Hfuel; [lia|].
  cbn [poll]. destruct (Z.ltb_spec (nowAt env i - startNow env) timeoutMs) as [Hlt|];
    [|by eexists].
  destruct (noExitCode _ && isKilled); [by eexists|].
  destruct (negb _); [by eexists|].
  specialize (Hclock i).
  destruct (IH (S i)) as [rest ->]; [lia|lia|]. by eexists.
Qed.

Lemma stopClawdChrome_returns (env : StopEnv) (running : RunningChrome)
    (timeoutMs : Z) (fuel : nat) :
  (∀ i, startNow env + 100 * Z.of_nat i ≤ nowAt env i) →
  (0 < fuel)%nat →
  timeoutMs ≤ 100 * (Z.of_nat fuel - 1) →
  is_Some (stopClawdChrome fuel env running timeoutMs).
Proof.
  intros Hclock Hpos Hfuel. unfold stopClawdChrome.
  destruct (killed (proc running)); [by eexists|].
  destruct (poll_returns env timeoutMs (kill env SIGTERM false) Hclock fuel 0%nat)
    as [rest ->]; [lia|lia|]. by eexists.
Qed.

(** C1 fails on the code.  When the process had not been signalled
    before, the graceful signal is delivered and the process has no exit
    code (it is still running, or has ended with code 0), the call sends
    the forceful signal straight after the graceful one: the loop is left
    at its first turn, before the endpoint is probed once and whatever
    the timeout is. *)
Theorem stopClawdChrome_kills_at_once (fuel : nat) (env : StopEnv)
    (running : RunningChrome) (timeoutMs : Z) :
  killed (proc running) = false →
  killResult env SIGTERM = Delivered →
  noExitCode (exitCodeAt env 0) = true →
  stopClawdChrome (S fuel) env running timeoutMs = Some [Kill SIGTERM; Kill SIGKILL].
Proof.
  intros Hfresh Hterm Hcode. unfold stopClawdChrome, kill.
  rewrite Hfresh, Hterm. cbn [poll]. rewrite Hcode. cbn [andb].
  by destruct (_ <? _).
Qed.

Lemma stopClawdChrome_kills_at_once_witness :
  reachableAt promptExit 0 = false
  ∧ stopClawdChrome 30 promptExit sampleRunning 2500
    = Some [Kill SIGTERM; Kill SIGKILL].
Proof.
  split; [reflexivity|].
  apply (stopClawdChrome_kills_at_once 29 promptExit sampleRunning 2500);
    reflexivity.
Defined.

(** The loop does what the claim says only where the graceful signal
    could not be delivered. *)
Example stopClawdChrome_polls_when_gone :
  stopClawdChrome 30 goneProcess sampleRunning 2500
  = Some [Kill SIGTERM; Probe true; Sleep 100; Probe true; Sleep 100;
          Probe true; Sleep 100; Probe false].
Proof. reflexivity. Qed.

End ShutdownFacts.

(** ** Protocol client: correlation *)

Section CorrelationFacts.
Import Js Cdp.

Lemma send_fields (m : string) (ps : option CaptureParams) (c : Conn) :
  send m ps c
  = (nextId c,
     {| nextId := nextId c + 1;
        pending := <[nextId c := {| promise := nextId c |}]> (pending c);
        sent := sent c ++ [{| id := nextId c; method := m; params := ps |}];
        closeCalled := closeCalled c |}).
Proof. reflexivity. Qed.

Lemma send_numbered (m : string) (ps : option CaptureParams) (c : Conn) :
  numbered c → numbered (send m ps c).2.
Proof.
  intros [Hnext Hids]. rewrite send_fields. cbn [snd]. split; cbn [nextId sent].
  - rewrite length_app. cbn [length]. lia.
  - intros k msg Hk. apply lookup_app_Some in Hk as [Hk|[Hge Hk]].
    + by apply Hids.
    + apply list_lookup_singleton_Some in Hk as [Hk <-]. cbn [id]. lia.
Qed.

Lemma sendAll_ids (cmds : list (string * option CaptureParams)) :
  ∀ (c : Conn) (k : nat) (i : Z),
    (sendAll cmds c).1 !! k = Some i → i = nextId c + Z.of_nat k.
Proof.
  induction cmds as [|[m ps] cmds IH]; intros c k i; [done|].
  cbn [sendAll]. rewrite send_fields.
  match goal with
  | |- context [sendAll cmds ?c1] =>
      specialize (IH c1); destruct (sendAll cmds c1) as [ids c'']
  end.
  cbn [fst nextId] in *. destruct k as [|k]; cbn.
  - intros [= <-]. lia.
  - intros Hk. rewrite (IH k i Hk). lia.
Qed.

(** What the [message] handler can do: nothing, or settle the one
    pending command filed under the id of the frame and remove it. *)
Lemma onMessage_routes (parsed : option json) (c : Conn) :
  onMessage parsed c = (c, [])
  ∨ ∃ i p outcome,
      prop parsed "id" = Some (JNum i)
      ∧ pending c !! i = Some p
      ∧ onMessage parsed c
        = ({| nextId := nextId c; pending := delete i (pending c);
              sent := sent c; closeCalled := closeCalled c |},
           [(promise p, outcome)])
      ∧ (truthy (prop (prop parsed "error") "message") = false →
         outcome = Resolved (prop parsed "result"))
      ∧ (truthy (prop (prop parsed "error") "message") = true →
         ∃ m, prop (prop parsed "error") "message" = Some m
              ∧ outcome = Rejected (NewError m)).
Proof.
  unfold onMessage.
  destruct (prop parsed "id") as [[| |i| | |]|]; try by left.
  destruct (pending c !! i) as [p|] eqn:Hp; [|by left].
  right. exists i, p.
  destruct (prop (prop parsed "error") "message") as [m|] eqn:Hm.
  - destruct (truthy (Some m)) eqn:Ht; eexists; repeat split; try done.
    intros _. by exists m.
  - eexists; repeat split; try done.
Qed.

Section Invariant.
Variable ToNumber : json → option Z.
Variable o : Opts.

Lemma plan_starts : ["Page.enable"] `prefix_of` plan o.
Proof. unfold plan. destruct (requested o); by eexists. Qed.

Lemma plan_requested :
  requested o = true →
  ["Page.enable"; "Page.getLayoutMetrics"] `prefix_of` plan o.
Proof. unfold plan. intros ->. by eexists. Qed.

Lemma settlementOf_single (p : Z) (outcome : Settlement) :
  settlementOf p [(p, outcome)] = Some outcome.
Proof. unfold settlementOf. cbn. by rewrite Z.eqb_refl. Qed.

Lemma init_consistent : consistent o init.
Proof. repeat split. intros k m Hk. by destruct k. Qed.

(** Sending on a connection without pending commands leaves exactly the
    new command pending. *)
Lemma send_alone (m : string) (ps : option CaptureParams) (c : Conn) :
  pending c = ∅ →
  pending (send m ps c).2 = {[ nextId c := {| promise := nextId c |} ]}
  ∧ method <$> sent (send m ps c).2 = ((method <$> sent c) ++ [m])%list.
Proof.
  intros Hempty. rewrite send_fields. cbn [snd pending sent]. rewrite Hempty.
  split; [apply insert_empty|]. by rewrite fmap_app.
Qed.

Lemma capture_consistent (cl : option Clip) (c : Conn) (ms : list string) :
  numbered c → pending c = ∅ → method <$> sent c = ms →
  (ms ++ ["Page.captureScreenshot"])%list = plan o →
  ∀ c' f more,
    capture cl c = (c', f, more) →
    numbered c' ∧ between o c' f.
Proof.
  intros Hnum Hempty Hms Hplan c' f more. unfold capture.
  pose proof (send_numbered "Page.captureScreenshot" (Some (captureParams cl)) c Hnum)
    as Hnum'.
  destruct (send_alone "Page.captureScreenshot" (Some (captureParams cl)) c Hempty)
    as [Hpend Hsent].
  rewrite send_fields in *. cbn [snd] in *. intros [= <- <- <-].
  split; [done|]. cbn [between]. split; [done|]. by rewrite Hsent, Hms.
Qed.

Lemma numbered_ext (c c1 : Conn) :
  nextId c1 = nextId c → sent c1 = sent c → numbered c → numbered c1.
Proof. unfold numbered. by intros -> ->. Qed.

Lemma closeWithError_fields (err : Error) (c : Conn) :
  closeWithError err c
  = ({| nextId := nextId c; pending := ∅; sent := sent c; closeCalled := true |},
     (fun kv : Z * Pending => (promise kv.2, Rejected err)) <$> map_to_list (pending c)).
Proof. reflexivity. Qed.

(** The function resumes on a connection without pending commands. *)
Lemma resume_consistent (c c1 : Conn) (a : Await) (p : Z) (outcome : Settlement) :
  numbered c → between o c (Suspended a) → awaited a = Some p →
  nextId c1 = nextId c → sent c1 = sent c → pending c1 = ∅ →
  ∀ c' f more,
    resume ToNumber o [(p, outcome)] c1 (Suspended a) = (c', f, more) →
    numbered c' ∧ between o c' f.
Proof.
  intros Hnum Hflow Ha Hnext Hsent Hempty c' f more.
  pose proof (numbered_ext c c1 Hnext Hsent Hnum) as Hnum1.
  unfold resume. rewrite Ha. cbn [mbind option_bind].
  rewrite settlementOf_single. destruct outcome as [v|e].
  - destruct a as [|q|q|q]; [done| | |]; cbn [between] in Hflow.
    + (* enabled *)
      destruct Hflow as (_ & Hms & _). rewrite <- Hsent in Hms. unfold afterEnable.
      destruct (requested o) eqn:Hreq.
      * pose proof (send_numbered "Page.getLayoutMetrics" None c1 Hnum1) as Hnum'.
        destruct (send_alone "Page.getLayoutMetrics" None c1 Hempty) as [Hpend Hms'].
        rewrite send_fields in *. cbn [snd] in *. intros [= <- <- <-].
        split; [done|]. cbn [between]. split; [done|]. split; [done|].
        by rewrite Hms', Hms.
      * apply (capture_consistent _ c1 _ Hnum1 Hempty Hms).
        unfold plan. by rewrite Hreq.
    + (* measured *)
      destruct Hflow as (_ & Hreq & Hms & _). rewrite <- Hsent in Hms.
      unfold afterMetrics. apply (capture_consistent _ c1 _ Hnum1 Hempty Hms).
      unfold plan. by rewrite Hreq.
    + (* captured *)
      destruct Hflow as (_ & Hms & _). rewrite <- Hsent in Hms. unfold afterCapture.
      rewrite closeWithError_fields.
      destruct (prop v "data") as [base64|];
        [destruct (truthy (Some base64)); [destruct (bufferAccepts base64)|]|];
        intros [= <- <- <-]; (split; [by eapply numbered_ext|]);
        cbn [between pending sent]; by rewrite ?Hempty, Hms.
  - intros [= <- <- <-]. split; [done|]. cbn [between]. split; [done|].
    rewrite Hsent. destruct a as [|q|q|q]; [done| | |]; cbn [between] in Hflow.
    + destruct Hflow as (_ & -> & _). apply plan_starts.
    + destruct Hflow as (_ & Hreq & -> & _). by apply plan_requested.
    + by destruct Hflow as (_ & -> & _).
Qed.

(** A flow that awaits a command has exactly that command pending. *)
Lemma between_pending (c : Conn) (f : Flow) (i : Z) (p : Pending) :
  between o c f → pending c !! i = Some p →
  ∃ a, f = Suspended a ∧ awaited a = Some i ∧ p = {| promise := i |}
       ∧ pending c = {[ i := {| promise := i |} ]}.
Proof.
  intros Hflow Hp.
  destruct f as [[|q|q|q]|b|e]; cbn [between] in Hflow;
    destruct Hflow as [Hpend Hrest]; rewrite Hpend in Hp;
    try (by rewrite lookup_empty in Hp);
    apply lookup_singleton_Some in Hp as [<- <-]; eexists; by repeat split.
Qed.

(** The command a flow awaits is the last one sent. *)
Lemma between_last (c : Conn) (a : Await) (i : Z) :
  numbered c → between o c (Suspended a) → awaited a = Some i →
  id <$> last (sent c) = Some i.
Proof.
  intros [Hnext Hids] Hflow Ha.
  assert (nextId c = i + 1 ∧ sent c ≠ []) as [Hi Hsome].
  { destruct a as [|q|q|q]; cbn in Ha; try discriminate; injection Ha as ->;
      cbn [between] in Hflow.
    - destruct Hflow as (_ & Hms & Hi). split; [done|]. intros Hnil.
      by rewrite Hnil in Hms.
    - destruct Hflow as (_ & _ & Hms & Hi). split; [done|]. intros Hnil.
      by rewrite Hnil in Hms.
    - destruct Hflow as (_ & Hms & Hi). split; [done|]. intros Hnil.
      rewrite Hnil in Hms. unfold plan in Hms. by destruct (requested o). }
  rewrite last_lookup.
  destruct (sent c !! pred (length (sent c))) as [m|] eqn:Hm.
  - cbn. f_equal. rewrite (Hids _ _ Hm).
    destruct (sent c); [done|]. cbn [length] in *. lia.
  - apply lookup_ge_None in Hm. destruct (sent c); [done|]. cbn [length] in Hm. lia.
Qed.

Lemma resume_nothing (c : Conn) (f : Flow) :
  resume ToNumber o [] c f = (c, f, []).
Proof. destruct f as [[]| |]; reflexivity. Qed.

Lemma step_consistent (s : State) (ev : Event) :
  consistent o s → consistent o (step ToNumber o s ev).
Proof.
  destruct s as [c f log]. unfold consistent. cbn [conn flow]. intros [Hnum Hflow].
  destruct ev as [|err|parsed|]; cbn [step flow conn].
  - (* open *)
    destruct f as [[]| |]; try done.
    destruct Hflow as [Hempty Hsent]. unfold afterOpen.
    pose proof (send_numbered "Page.enable" None c Hnum) as Hnum'.
    destruct (send_alone "Page.enable" None c Hempty) as [Hpend Hms].
    rewrite send_fields in *. cbn [conn flow snd] in *. split; [done|].
    cbn [between]. split; [done|]. by rewrite Hms, Hsent.
  - (* error *)
    destruct f as [[]| |]; try done.
    destruct Hflow as [Hempty Hsent]. cbn [conn flow between]. split; [done|].
    split; [done|]. rewrite Hsent. apply prefix_nil.
  - (* message *)
    destruct (onMessage_routes parsed c)
      as [->|(i & p & outcome & _ & Hp & -> & _)]; unfold finish; cbn [flow settled].
    + by rewrite resume_nothing.
    + destruct (between_pending c f i p Hflow Hp) as (a & -> & Ha & -> & Hpend).
      destruct (resume _ _ _ _ _) as [[c' f'] more] eqn:Hres. cbn [conn flow].
      eapply (resume_consistent c _ a i outcome Hnum Hflow Ha); [..|exact Hres];
        cbn [nextId sent pending]; try done.
      rewrite Hpend. apply delete_singleton_eq.
  - (* close *)
    rewrite closeWithError_fields. unfold finish. cbn [flow settled].
    destruct f as [[|q|q|q]|b|e]; cbn [between] in Hflow;
      destruct Hflow as [Hpend Hrest]; rewrite Hpend;
      rewrite ?map_to_list_empty, ?map_to_list_singleton; cbn [fmap list_fmap];
      try (cbn [resume awaited mbind option_bind conn flow between pending sent];
           split; [by eapply numbered_ext|]; by rewrite ?Hrest).
    all: destruct (resume _ _ _ _ _) as [[c' f'] more] eqn:Hres; cbn [conn flow];
      eapply (resume_consistent c _ _ q _ Hnum); [..|exact Hres]; try done;
      cbn [between]; by rewrite ?Hpend.
Qed.

Lemma run_consistent (evs : list Event) : consistent o (run ToNumber o evs).
Proof.
  unfold run. generalize init_consistent. generalize init.
  induction evs as [|ev evs IH]; intros s Hs; [done|].
  cbn [fold_left]. apply IH. by apply step_consistent.
Qed.

Lemma onMessage_answer (frame : option json) (c : Conn) (p : Z) (q : Pending) :
  answers frame p → pending c !! p = Some q →
  onMessage frame c
  = ({| nextId := nextId c; pending := delete p (pending c);
        sent := sent c; closeCalled := closeCalled c |},
     [(promise q, Resolved (prop frame "result"))]).
Proof.
  intros [Hid Hok] Hq. unfold onMessage. rewrite Hid, Hq.
  destruct (prop (prop frame "error") "message"); [by rewrite Hok|done].
Qed.

(** Rejections throw out of the function; they never let it run on. *)
Lemma resume_rejections (e : Error) (news : list (Z * Settlement)) (c : Conn) (f : Flow) :
  (∀ q outcome, In (q, outcome) news → outcome = Rejected e) →
  ∃ f',
    resume ToNumber o news c f = (c, f', [])
    ∧ ∀ a p outcome, f = Suspended a → awaited a = Some p →
                     In (p, outcome) news → f' = Thrown e.
Proof.
  intros Hall. destruct f as [a|b|err]; try (eexists; by split).
  cbn [resume]. destruct (awaited a) as [p|] eqn:Ha; cbn [mbind option_bind].
  - unfold settlementOf.
    destruct (List.find _ news) as [[q outcome]|] eqn:Hfind; cbn [fmap option_fmap option_map snd].
    + apply List.find_some in Hfind as [Hin _]. rewrite (Hall _ _ Hin).
      eexists. split; [reflexivity|done].
    + eexists. split; [reflexivity|].
      intros a' p' outcome [= <-] Hp' Hin. rewrite Ha in Hp'. injection Hp' as <-.
      apply (List.find_none _ _ Hfind) in Hin. cbn in Hin. lia.
  - eexists. split; [reflexivity|]. intros a' p' outcome [= <-]. congruence.
Qed.

End Invariant.

(** C3.  When the socket closes, whatever the mapping holds: each of the
    N pending commands is rejected with the connection-closed error (and
    nothing else is settled), the mapping is empty afterwards, and a
    function awaiting one of them throws that error instead of waiting
    on. *)
Theorem close_rejects_all_pending (ToNumber : json → option Z) (o : Opts) (s : State) :
  ∃ news,
    settled (step ToNumber o s WsClose) = (settled s ++ news)%list
    ∧ length news = size (pending (conn s))
    ∧ (∀ i p, pending (conn s) !! i = Some p →
              In (promise p, Rejected connectionClosed) news)
    ∧ (∀ q outcome, In (q, outcome) news → outcome = Rejected connectionClosed)
    ∧ pending (conn (step ToNumber o s WsClose)) = ∅
    ∧ (∀ a p, flow s = Suspended a → awaited a = Some p →
              pending (conn s) !! p = Some {| promise := p |} →
              flow (step ToNumber o s WsClose) = Thrown connectionClosed).
Proof.
  cbn [step]. rewrite closeWithError_fields. unfold finish.
  set (news := (fun kv : Z * Pending => (promise kv.2, Rejected connectionClosed))
               <$> map_to_list (pending (conn s))).
  assert (∀ i p, pending (conn s) !! i = Some p →
                 In (promise p, Rejected connectionClosed) news) as Hin.
  { intros i p Hp. apply list_elem_of_In. unfold news.
    apply (list_elem_of_fmap_2
             (fun kv : Z * Pending => (promise kv.2, Rejected connectionClosed))
             _ (i, p)).
    by apply elem_of_map_to_list. }
  assert (∀ q outcome, In (q, outcome) news → outcome = Rejected connectionClosed)
    as Hall.
  { intros q outcome Hq%list_elem_of_In. unfold news in Hq.
    apply list_elem_of_fmap in Hq as (kv & [= _ ->] & _). done. }
  destruct (resume_rejections ToNumber o connectionClosed news
              {| nextId := nextId (conn s); pending := ∅; sent := sent (conn s);
                 closeCalled := true |} (flow s) Hall) as (f' & -> & Hthrown).
  exists news. cbn [settled conn flow pending]. rewrite app_nil_r.
  repeat split; try done.
  - unfold news. by rewrite length_fmap, length_map_to_list.
  - intros a p Ha Hp Hpend. eapply Hthrown; [done..|]. exact (Hin p _ Hpend).
Qed.

(** C4.  Commands sent one after the other on a connection get the
    consecutive ids from the connection's counter on, and the counter of
    a new connection is 1: the k-th frame a capture has sent (counting
    from 0) carries id 1 + k, so ids are strictly increasing from 1,
    unique, and never reused.  [send] files the promise it makes under
    the id it hands out, and in a capture the entry found under an id is
    that promise.  An inbound frame with the id of a pending command
    settles exactly that command and removes it from the mapping: it is
    resolved with the frame's result, or rejected with the frame's error
    message when there is one; every other entry stays and nothing else
    of the connection changes.  A frame without a numeric id, or with an
    id under which nothing is pending, settles nothing and changes
    nothing. *)
Theorem ids_increase_and_route (ToNumber : json → option Z) :
  nextId (conn init) = 1
  ∧ (∀ cmds c k i, (sendAll cmds c).1 !! k = Some i → i = nextId c + Z.of_nat k)
  ∧ (∀ o evs k m,
       sent (conn (run ToNumber o evs)) !! k = Some m → id m = 1 + Z.of_nat k)
  ∧ (∀ m ps c,
       (send m ps c).1 = nextId c
       ∧ pending (send m ps c).2 !! nextId c = Some {| promise := nextId c |})
  ∧ (∀ o evs i p,
       pending (conn (run ToNumber o evs)) !! i = Some p → promise p = i)
  ∧ (∀ parsed c i p,
       prop parsed "id" = Some (JNum i) →
       pending c !! i = Some p →
       ∃ c' outcome,
         onMessage parsed c = (c', [(promise p, outcome)])
         ∧ pending c' = delete i (pending c)
         ∧ pending c' !! i = None
         ∧ (∀ j, j ≠ i → pending c' !! j = pending c !! j)
         ∧ nextId c' = nextId c
         ∧ sent c' = sent c
         ∧ closeCalled c' = closeCalled c
         ∧ (truthy (prop (prop parsed "error") "message") = false →
            outcome = Resolved (prop parsed "result"))
         ∧ (∀ message, prop (prop parsed "error") "message" = Some message →
                       truthy (Some message) = true →
                       outcome = Rejected (NewError message)))
  ∧ (∀ parsed c,
       (∀ i, prop parsed "id" = Some (JNum i) → pending c !! i = None) →
       onMessage parsed c = (c, [])).
Proof.
  split; [reflexivity|]. split; [apply sendAll_ids|]. split; [|split; [|split; [|split]]].
  - intros o evs. by destruct (run_consistent ToNumber o evs) as [[_ Hids] _].
  - intros m ps c. rewrite send_fields. cbn [fst snd pending].
    split; [done|]. apply lookup_insert_eq.
  - intros o evs i p Hp. destruct (run_consistent ToNumber o evs) as [_ Hflow].
    by destruct (between_pending o _ _ i p Hflow Hp) as (_ & _ & _ & -> & _).
  - intros parsed c i p Hid Hp.
    destruct (onMessage_routes parsed c)
      as [Hnone|(i' & p' & outcome & Hid' & Hp' & Hsome & Hok & Herr)].
    + unfold onMessage in Hnone. rewrite Hid, Hp in Hnone.
      by destruct (prop (prop parsed "error") "message") as [message|];
        [destruct (truthy (Some message))|].
    + rewrite Hid in Hid'. injection Hid' as <-. rewrite Hp in Hp'.
      injection Hp' as <-. eexists _, outcome. split; [exact Hsome|].
      cbn [pending nextId sent closeCalled]. split; [done|].
      split; [apply lookup_delete_eq|]. split; [intros j Hj; by rewrite lookup_delete_ne|].
      split; [done|]. split; [done|]. split; [done|]. split; [exact Hok|].
      intros message Hm Htrue. rewrite Hm in Herr.
      destruct (Herr Htrue) as (m' & [= <-] & ->). done.
  - intros parsed c Hstray. unfold onMessage.
    destruct (prop parsed "id") as [[| |i| | |]|]; try done.
    by rewrite (Hstray i eq_refl).
Qed.

(** C10.  After every event of a capture the mapping holds at most one
    command; the one it holds is the command the function is waiting for,
    and it is the last command sent.  Within an event, the function only
    sends a command after the [message] handler has emptied the mapping:
    a command is sent once the one before it has been answered and
    removed, and the first is sent while nothing is pending. *)
Theorem capture_one_pending (ToNumber : json → option Z) (o : Opts) (evs : list Event) :
  (size (pending (conn (run ToNumber o evs))) ≤ 1)%nat
  ∧ (∀ i p,
       pending (conn (run ToNumber o evs)) !! i = Some p →
       (∃ a, flow (run ToNumber o evs) = Suspended a ∧ awaited a = Some i)
       ∧ id <$> last (sent (conn (run ToNumber o evs))) = Some i)
  ∧ (∀ parsed,
       sent (conn (step ToNumber o (run ToNumber o evs) (WsMessage parsed)))
       ≠ sent (conn (run ToNumber o evs)) →
       pending (onMessage parsed (conn (run ToNumber o evs))).1 = ∅)
  ∧ (flow (run ToNumber o evs) = Suspended AwaitOpen →
     pending (conn (run ToNumber o evs)) = ∅).
Proof.
  destruct (run_consistent ToNumber o evs) as [Hnum Hflow]. split; [|split; [|split]].
  - destruct (flow _) as [[|q|q|q]|b|e]; cbn [between] in Hflow;
      destruct Hflow as [-> _]; rewrite ?map_size_empty, ?map_size_singleton; lia.
  - intros i p Hp.
    destruct (between_pending o _ _ i p Hflow Hp) as (a & Hf & Ha & _).
    split; [eauto|]. rewrite Hf in Hflow. by apply (between_last o _ a).
  - intros parsed. cbn [step].
    destruct (onMessage_routes parsed (conn (run ToNumber o evs)))
      as [->|(i & p & outcome & _ & Hp & -> & _)].
    + unfold finish. rewrite resume_nothing. by cbn.
    + intros _. cbn [fst pending].
      destruct (between_pending o _ _ i p Hflow Hp) as (a & _ & _ & _ & ->).
      apply delete_singleton_eq.
  - intros Hf. rewrite Hf in Hflow. by destruct Hflow.
Qed.

End CorrelationFacts.

(** ** Protocol client: the capture sequence *)

Section CaptureFacts.
Import Js Cdp.
Variable ToNumber : json → option Z.

Lemma methods_planned (o : Opts) (s : State) :
  consistent o s → (method <$> sent (conn s)) `prefix_of` plan o.
Proof.
  intros [_ Hflow]. destruct (flow s) as [[|q|q|q]|b|e]; cbn [between] in Hflow.
  - destruct Hflow as [_ ->]. apply prefix_nil.
  - destruct Hflow as (_ & -> & _). apply plan_starts.
  - destruct Hflow as (_ & Hreq & -> & _). by apply plan_requested.
  - by destruct Hflow as (_ & -> & _).
  - by destruct Hflow.
  - by destruct Hflow.
Qed.

(** One answered command: the handler settles it and the function runs
    to its next suspension on a connection without pending commands. *)
Lemma step_answer (o : Opts) (s : State) (a : Await) (p : Z) (frame : option json) :
  consistent o s → flow s = Suspended a → awaited a = Some p → answers frame p →
  step ToNumber o s (WsMessage frame)
  = finish ToNumber o s
      ({| nextId := nextId (conn s); pending := ∅; sent := sent (conn s);
          closeCalled := closeCalled (conn s) |},
       [(p, Resolved (prop frame "result"))]).
Proof.
  intros [_ Hflow] Hf Ha Hans. rewrite Hf in Hflow. cbn [step].
  assert (pending (conn s) = {[ p := {| promise := p |} ]}) as Hpend.
  { destruct a; cbn in Ha; try discriminate; injection Ha as ->;
      cbn [between] in Hflow; by destruct Hflow. }
  rewrite (onMessage_answer frame (conn s) p {| promise := p |} Hans)
    by (rewrite Hpend; apply lookup_singleton_eq).
  by rewrite Hpend, delete_singleton_eq.
Qed.

(** C5.  When the function waits for the answer to the capture command
    and the answer comes without error indication and without a [data]
    payload (absent, null or empty), the function throws the
    capture-failed error instead of returning; by then every pending
    command has been rejected, the mapping is empty, and [ws.close()] has
    been called. *)
Theorem missing_data_fails_closed (o : Opts) (evs : list Event) (p : Z)
    (frame : option json) :
  flow (run ToNumber o evs) = Suspended (AwaitCapture p) →
  answers frame p →
  truthy (prop (prop frame "result") "data") = false →
  let s' := step ToNumber o (run ToNumber o evs) (WsMessage frame) in
  flow s' = Thrown captureFailed
  ∧ pending (conn s') = ∅
  ∧ closeCalled (conn s') = true
  ∧ sent (conn s') = sent (conn (run ToNumber o evs)).
Proof.
  intros Hf Hans Hdata s'. subst s'.
  rewrite (step_answer o _ _ p frame (run_consistent ToNumber o evs) Hf eq_refl Hans).
  unfold finish. rewrite Hf. cbn [resume awaited mbind option_bind].
  rewrite settlementOf_single. unfold afterCapture.
  destruct (prop (prop frame "result") "data") as [base64|];
    [rewrite Hdata|]; by rewrite closeWithError_fields.
Qed.






End CaptureFacts.

(** Scenarios B and C of the spec, and a page taller than the viewport,
    run on the model. *)
Section Scenarios.
Import Js Cdp.

Example scenario_B :
  let s := run notANumber viewportOnly
             [WsOpen; WsMessage (okFrame 1 (JObj ∅));
              WsMessage (okFrame 2 (JObj {[ "data" := JStr "aGVsbG8=" ]}))] in
  flow s = ReturnsBufferFrom (JStr "aGVsbG8=")
  ∧ method <$> sent (conn s) = ["Page.enable"; "Page.captureScreenshot"]
  ∧ closeCalled (conn s) = true.
Proof. by vm_compute. Qed.

Example scenario_C :
  let s := run notANumber wholePage
             [WsOpen; WsMessage (okFrame 1 (JObj ∅)); WsMessage (okFrame 2 flatMetrics)] in
  flow s = Suspended (AwaitCapture 3)
  ∧ (params <$> sent (conn s)) !! 2%nat = Some (Some (captureParams None)).
Proof. by vm_compute. Qed.

Example scenario_tall_page :
  let s := run notANumber wholePage
             [WsOpen; WsMessage (okFrame 1 (JObj ∅)); WsMessage (okFrame 2 tallMetrics)] in
  (params <$> sent (conn s)) !! 2%nat
  = Some (Some (captureParams
                  (Some {| x := 0; y := 0; width := 800; height := 4000; scale := 1 |}))).
Proof. by vm_compute. Qed.

End Scenarios.

(** ** The theorems at work *)

Section Instances.
Import Js Cdp.

Lemma close_rejects_all_pending_witness :
  size (pending (conn twoPending)) = 2%nat
  ∧ pending (conn (step notANumber wholePage twoPending WsClose)) = ∅
  ∧ flow (step notANumber wholePage twoPending WsClose) = Thrown connectionClosed
  ∧ length (settled (step notANumber wholePage twoPending WsClose)) = 2%nat.
Proof.
  destruct (close_rejects_all_pending notANumber wholePage twoPending)
    as (news & Hlog & Hlen & _ & _ & Hempty & Hflow).
  split; [by vm_compute|]. split; [exact Hempty|]. split.
  - apply (Hflow (AwaitMetrics 2) 2); by vm_compute.
  - rewrite Hlog, length_app, Hlen. by vm_compute.
Defined.

Lemma ids_increase_and_route_witness :
  (sendAll [("Page.enable", None); ("Page.getLayoutMetrics", None);
            ("Page.captureScreenshot", Some (captureParams None))]
           (conn init)).1 !! 2%nat = Some 3
  ∧ 3 = nextId (conn init) + Z.of_nat 2
  ∧ pending (conn twoPending) !! 1 = Some {| promise := 1 |}
  ∧ pending (conn twoPending) !! 2 = Some {| promise := 2 |}
  ∧ ∃ c',
      onMessage (okFrame 2 (JObj ∅)) (conn twoPending)
      = (c', [(2, Resolved (Some (JObj ∅)))])
      ∧ pending c' !! 2 = None
      ∧ pending c' !! 1 = Some {| promise := 1 |}.
Proof.
  destruct (ids_increase_and_route notANumber) as (_ & Hids & _ & _ & _ & Hroute & _).
  split; [by vm_compute|]. split.
  { apply (Hids [("Page.enable", None); ("Page.getLayoutMetrics", None);
                 ("Page.captureScreenshot", Some (captureParams None))]
                (conn init) 2%nat 3).
    by vm_compute. }
  split; [by vm_compute|]. split; [by vm_compute|].
  destruct (Hroute (okFrame 2 (JObj ∅)) (conn twoPending) 2 {| promise := 2 |})
    as (c' & outcome & Hrun & _ & Hgone & Hstay & _ & _ & _ & Hok & _);
    [by vm_compute|by vm_compute|].
  exists c'. rewrite Hrun, (Hok ltac:(by vm_compute)).
  split; [by vm_compute|]. split; [exact Hgone|].
  rewrite (Hstay 1 ltac:(done)). by vm_compute.
Defined.

Lemma capture_one_pending_witness :
  pending (conn (run notANumber wholePage [WsOpen; WsMessage (okFrame 1 (JObj ∅))]))
    !! 2 = Some {| promise := 2 |}
  ∧ (size (pending (conn (run notANumber wholePage
                            [WsOpen; WsMessage (okFrame 1 (JObj ∅))]))) ≤ 1)%nat
  ∧ id <$> last (sent (conn (run notANumber wholePage
                               [WsOpen; WsMessage (okFrame 1 (JObj ∅))]))) = Some 2.
Proof.
  destruct (capture_one_pending notANumber wholePage
              [WsOpen; WsMessage (okFrame 1 (JObj ∅))]) as (Hsize & Hlast & _).
  assert (pending (conn (run notANumber wholePage
                           [WsOpen; WsMessage (okFrame 1 (JObj ∅))]))
            !! 2 = Some {| promise := 2 |}) as Hp by (by vm_compute).
  split; [exact Hp|]. split; [exact Hsize|]. exact (proj2 (Hlast 2 _ Hp)).
Defined.

Lemma missing_data_fails_closed_witness :
  flow (run notANumber viewportOnly [WsOpen; WsMessage (okFrame 1 (JObj ∅))])
  = Suspended (AwaitCapture 2)
  ∧ flow (step notANumber viewportOnly
            (run notANumber viewportOnly [WsOpen; WsMessage (okFrame 1 (JObj ∅))])
            (WsMessage (okFrame 2 (JObj ∅))))
    = Thrown captureFailed
  ∧ pending (conn (step notANumber viewportOnly
                     (run notANumber viewportOnly
                        [WsOpen; WsMessage (okFrame 1 (JObj ∅))])
                     (WsMessage (okFrame 2 (JObj ∅))))) = ∅
  ∧ closeCalled (conn (step notANumber viewportOnly
                         (run notANumber viewportOnly
                            [WsOpen; WsMessage (okFrame 1 (JObj ∅))])
                         (WsMessage (okFrame 2 (JObj ∅))))) = true.
Proof.
  split; [by vm_compute|].
  destruct (missing_data_fails_closed notANumber viewportOnly
              [WsOpen; WsMessage (okFrame 1 (JObj ∅))] 2 (okFrame 2 (JObj ∅)))
    as (Hflow & Hpend & Hclosed & _); [by vm_compute|by split; vm_compute|by vm_compute|].
  exact (conj Hflow (conj Hpend Hclosed)).
Defined.


End Instances.

(* ===================================================================== *)
(** * Further properties of the code *)
(* ===================================================================== *)

(** ** Protocol client: frames, failures and completion *)

Section ClientFacts.
Import Js Cdp.
Variable ToNumber : json → option Z.

Lemma finish_nothing (o : Opts) (s : State) :
  finish ToNumber o s (conn s, []) = s.
Proof.
  unfold finish. rewrite resume_nothing. destruct s as [c f log].
  cbn [conn flow settled]. by rewrite app_nil_r.
Qed.

(** A frame that cannot be parsed, has no numeric id, or carries an id
    under which nothing is pending (never sent, or answered before)
    changes nothing at all. *)
Theorem stray_frames_ignored (o : Opts) (s : State) (parsed : option json) :
  (∀ i, prop parsed "id" = Some (JNum i) → pending (conn s) !! i = None) →
  step ToNumber o s (WsMessage parsed) = s.
Proof.
  intros Hstray. cbn [step]. unfold onMessage.
  destruct (prop parsed "id") as [[| |i| | |]|]; try apply finish_nothing.
  rewrite (Hstray i eq_refl). apply finish_nothing.
Qed.

(** A frame for the awaited command that carries an error message makes
    the function throw an error with that message.  Nothing is sent and
    [ws.close()] is not called on this path: the socket stays as it was. *)
Theorem error_frame_throws_without_closing (o : Opts) (evs : list Event)
    (a : Await) (p : Z) (frame : option json) (m : json) :
  flow (run ToNumber o evs) = Suspended a →
  awaited a = Some p →
  refuses frame p m →
  flow (step ToNumber o (run ToNumber o evs) (WsMessage frame)) = Thrown (NewError m)
  ∧ sent (conn (step ToNumber o (run ToNumber o evs) (WsMessage frame)))
    = sent (conn (run ToNumber o evs))
  ∧ pending (conn (step ToNumber o (run ToNumber o evs) (WsMessage frame))) = ∅
  ∧ closeCalled (conn (step ToNumber o (run ToNumber o evs) (WsMessage frame)))
    = closeCalled (conn (run ToNumber o evs)).
Proof.
  intros Hf Ha (Hid & Hm & Htrue).
  destruct (run_consistent ToNumber o evs) as [_ Hflow].
  set (s := run ToNumber o evs) in *. rewrite Hf in Hflow.
  assert (pending (conn s) = {[ p := {| promise := p |} ]}) as Hpend.
  { destruct a; cbn in Ha; try discriminate; injection Ha as ->;
      cbn [between] in Hflow; by destruct Hflow. }
  cbn [step]. unfold onMessage. rewrite Hid, Hpend, lookup_singleton_eq, Hm, Htrue.
  unfold finish. rewrite Hf. cbn [resume promise]. rewrite Ha.
  cbn [mbind option_bind]. rewrite settlementOf_single. cbn.
  by rewrite delete_singleton_eq.
Qed.

Lemma finished_step (o : Opts) (s : State) (ev : Event) :
  finished (flow s) = true →
  flow (step ToNumber o s ev) = flow s
  ∧ sent (conn (step ToNumber o s ev)) = sent (conn s)
  ∧ nextId (conn (step ToNumber o s ev)) = nextId (conn s).
Proof.
  intros Hdone. destruct s as [c f log]. cbn [flow conn] in *.
  destruct f as [a|b|e]; [discriminate| |];
    destruct ev as [|err|parsed|]; cbn [step flow conn]; try done.
  all: try (destruct (onMessage_routes parsed c)
              as [->|(i & q & outcome & _ & _ & -> & _)]; by cbn).
Qed.

Lemma finished_steps (o : Opts) (evs : list Event) :
  ∀ s, finished (flow s) = true →
       flow (fold_left (step ToNumber o) evs s) = flow s
       ∧ sent (conn (fold_left (step ToNumber o) evs s)) = sent (conn s)
       ∧ nextId (conn (fold_left (step ToNumber o) evs s)) = nextId (conn s).
Proof.
  induction evs as [|ev evs IH]; intros s Hdone; [done|]. cbn [fold_left].
  destruct (finished_step o s ev Hdone) as (Hf & Hs & Hn).
  destruct (IH (step ToNumber o s ev)) as (Hf' & Hs' & Hn'); [by rewrite Hf|].
  by rewrite Hf', Hs', Hn'.
Qed.

(** Once the function has returned or thrown, no event revives it: its
    outcome stays, and no frame is sent on the socket any more. *)
Theorem finished_is_final (o : Opts) (before after : list Event) :
  finished (flow (run ToNumber o before)) = true →
  flow (run ToNumber o (before ++ after)) = flow (run ToNumber o before)
  ∧ sent (conn (run ToNumber o (before ++ after)))
    = sent (conn (run ToNumber o before)).
Proof.
  intros Hdone. unfold run in *. rewrite fold_left_app.
  by destruct (finished_steps o after _ Hdone) as (Hf & Hs & _).
Qed.

(** The commands of a capture are always an initial part of the plan:
    [Page.enable], then [Page.getLayoutMetrics] if the whole page was
    asked for, then [Page.captureScreenshot]; no command is sent twice and
    at most three are sent. *)
Theorem commands_follow_plan (o : Opts) (evs : list Event) :
  (method <$> sent (conn (run ToNumber o evs))) `prefix_of` plan o
  ∧ (length (sent (conn (run ToNumber o evs))) ≤ 3)%nat.
Proof.
  pose proof (methods_planned o _ (run_consistent ToNumber o evs)) as Hprefix.
  split; [done|]. apply prefix_length in Hprefix. rewrite length_fmap in Hprefix.
  unfold plan in Hprefix. destruct (requested o); cbn in Hprefix; lia.
Qed.

(** An error reported before the socket opens fails the call with that
    error, whatever happens afterwards, and no command is ever sent. *)
Theorem connect_error_fails (o : Opts) (err : Error) (evs : list Event) :
  flow (run ToNumber o (WsError err :: evs)) = Thrown err
  ∧ sent (conn (run ToNumber o (WsError err :: evs))) = [].
Proof.
  unfold run. cbn [fold_left].
  by destruct (finished_steps o evs (step ToNumber o init (WsError err)) eq_refl)
    as (-> & -> & _).
Qed.

(** When the answer to the capture command carries a truthy [data]
    payload that is no object or array, the function calls [ws.close()]
    and then hands the payload to [Buffer.from]: a string is returned as
    the buffer decoded from it, a number or a boolean makes the function
    throw the [TypeError] of the platform, with the socket closed all the
    same.  Nothing is left pending and nothing more is sent. *)
Theorem payload_is_decoded (o : Opts) (evs : list Event) (p : Z)
    (frame : option json) (base64 : json) :
  flow (run ToNumber o evs) = Suspended (AwaitCapture p) →
  answers frame p →
  prop (prop frame "result") "data" = Some base64 →
  truthy (Some base64) = true →
  isObjectType base64 = false →
  flow (step ToNumber o (run ToNumber o evs) (WsMessage frame))
  = match base64 with
    | JStr _ => ReturnsBufferFrom base64
    | _ => Thrown (TypeError base64)
    end
  ∧ closeCalled (conn (step ToNumber o (run ToNumber o evs) (WsMessage frame))) = true
  ∧ pending (conn (step ToNumber o (run ToNumber o evs) (WsMessage frame))) = ∅
  ∧ sent (conn (step ToNumber o (run ToNumber o evs) (WsMessage frame)))
    = sent (conn (run ToNumber o evs)).
Proof.
  intros Hf Hans Hdata Htrue Hprim.
  rewrite (step_answer ToNumber o _ _ p frame (run_consistent ToNumber o evs)
             Hf eq_refl Hans).
  unfold finish. rewrite Hf. cbn [resume awaited mbind option_bind].
  rewrite settlementOf_single. unfold afterCapture. rewrite Hdata, Htrue.
  by destruct base64.
Qed.

(** An endpoint that answers every command in turn, the last one with a
    non-empty [data] string, makes the call return the buffer decoded
    from that string after exactly the planned commands. *)
Theorem answered_capture_returns (o : Opts) (enabled metrics : json) (data : string) :
  data ≠ "" →
  let evs :=
    (WsOpen :: WsMessage (okFrame 1 enabled)
       :: (if requested o
           then [WsMessage (okFrame 2 metrics);
                 WsMessage (okFrame 3 (JObj {[ "data" := JStr data ]}))]
           else [WsMessage (okFrame 2 (JObj {[ "data" := JStr data ]}))]))%list in
  flow (run ToNumber o evs) = ReturnsBufferFrom (JStr data)
  ∧ method <$> sent (conn (run ToNumber o evs)) = plan o
  ∧ closeCalled (conn (run ToNumber o evs)) = true.
Proof.
  intros Hdata evs. subst evs. unfold plan.
  destruct data as [|ch data]; [done|].
  destruct o as [url [[|]|]]; cbn [requested fullPage]; by vm_compute.
Qed.

End ClientFacts.

(** ** Deep set: composition *)

Section SetDeepMore.
Import Js Chrome.

(** What [setDeep] binds to the first key of a path. *)
Lemma setDeep_head (obj : gmap string json) (key : string) (rest : list string)
    (value : json) :
  inherited obj key = false →
  ∃ bound,
    tree (setDeep obj (key :: rest) value) = <[ key := bound ]> obj
    ∧ bound = match rest with
              | [] => value
              | _ => JObj (tree (setDeep (nextNode obj key) rest value))
              end.
Proof.
  intros Hown. destruct rest.
  - rewrite setDeep_last by done. by eexists.
  - rewrite setDeep_cons by done. by eexists.
Qed.

Lemma nextNode_insert (obj : gmap string json) (key : string) (fields : gmap string json) :
  nextNode (<[ key := JObj fields ]> obj) key = fields.
Proof. unfold nextNode. by rewrite lookup_insert_eq. Qed.

Lemma nextNode_insert_ne (obj : gmap string json) (key other : string) (v : json) :
  key ≠ other → nextNode (<[ other := v ]> obj) key = nextNode obj key.
Proof. intros Hne. unfold nextNode. by rewrite lookup_insert_ne. Qed.

Lemma inherited_insert_ne (obj : gmap string json) (key other : string) (v : json) :
  key ≠ other → inherited (<[ other := v ]> obj) key = inherited obj key.
Proof. intros Hne. unfold inherited. by rewrite lookup_insert_ne. Qed.

Lemma setDeep_noop (keys : list string) (obj : gmap string json) (value : json) :
  keys ≠ [] →
  getPath (JObj obj) keys = Some value →
  tree (setDeep obj keys value) = obj.
Proof.
  revert obj. induction keys as [|key rest IH]; intros obj Hkeys Hget; [done|].
  cbn [getPath] in Hget. destruct (obj !! key) as [next|] eqn:Hnext; [|done].
  pose proof (inherited_own obj key next Hnext) as Hown.
  cbn [mbind option_bind] in Hget. destruct rest as [|key' rest].
  - cbn in Hget. injection Hget as ->. rewrite setDeep_last by done.
    by apply insert_id.
  - rewrite setDeep_cons by done. unfold nextNode. rewrite Hnext.
    destruct next as [| | | | |fields]; try done. cbn [tree].
    rewrite (IH fields) by done. by apply insert_id.
Qed.

(** Setting the same path to the same value twice is setting it once,
    for a path without [__proto__] (the empty path included). *)
Theorem setDeep_idempotent (keys : list string) (obj : gmap string json) (value : json) :
  "__proto__" ∉ keys →
  setDeep (tree (setDeep obj keys value)) keys value = setDeep obj keys value.
Proof.
  revert obj. induction keys as [|key rest IH]; intros obj Hkeys.
  - cbn. by rewrite insert_insert_eq.
  - apply not_elem_of_cons in Hkeys as [Hkey Hrest].
    assert (∀ o, inherited o key = false) as Hown
      by (intros o; apply inherited_other; congruence).
    destruct rest as [|key' rest].
    + rewrite !setDeep_last by done. cbn [tree]. by rewrite insert_insert_eq.
    + rewrite !(setDeep_cons _ key (key' :: rest)) by done. cbn [tree].
      rewrite nextNode_insert, IH by done. by rewrite insert_insert_eq.
Qed.

(** Setting a path without [__proto__] changes nothing exactly when the
    path already leads to the value. *)
Theorem setDeep_keeps_bound (keys : list string) (obj : gmap string json) (value : json) :
  keys ≠ [] →
  "__proto__" ∉ keys →
  tree (setDeep obj keys value) = obj ↔ getPath (JObj obj) keys = Some value.
Proof.
  intros Hkeys Hproto. split.
  - intros Hsame. rewrite <- Hsame at 1. by apply setDeep_binds.
  - by apply setDeep_noop.
Qed.

(** Settings along paths without [__proto__] that part ways do not
    disturb each other: they can be made in either order. *)
Theorem setDeep_commutes (keys keys' : list string) (obj : gmap string json)
    (value value' : json) :
  partWays keys keys' →
  "__proto__" ∉ keys →
  "__proto__" ∉ keys' →
  tree (setDeep (tree (setDeep obj keys value)) keys' value')
  = tree (setDeep (tree (setDeep obj keys' value')) keys value).
Proof.
  intros (pre & k & k' & rest & rest' & Hne & -> & ->). revert obj.
  induction pre as [|a pre IH]; intros obj Hkeys Hkeys'.
  - cbn [app] in *.
    apply not_elem_of_cons in Hkeys as [Hk _].
    apply not_elem_of_cons in Hkeys' as [Hk' _].
    assert (∀ o, inherited o k = false) as Hown
      by (intros o; apply inherited_other; congruence).
    assert (∀ o, inherited o k' = false) as Hown'
      by (intros o; apply inherited_other; congruence).
    destruct (setDeep_head obj k rest value (Hown _)) as (b1 & -> & Hb1).
    destruct (setDeep_head obj k' rest' value' (Hown' _)) as (b2 & -> & Hb2).
    destruct (setDeep_head (<[k := b1]> obj) k' rest' value' (Hown' _))
      as (b2' & -> & Hb2').
    destruct (setDeep_head (<[k' := b2]> obj) k rest value (Hown _))
      as (b1' & -> & Hb1').
    rewrite nextNode_insert_ne in Hb2' by done.
    rewrite nextNode_insert_ne in Hb1' by done.
    subst. by apply insert_insert_ne.
  - rewrite <- !app_comm_cons in *.
    apply not_elem_of_cons in Hkeys as [Ha Hkeys].
    apply not_elem_of_cons in Hkeys' as [_ Hkeys'].
    assert (∀ o, inherited o a = false) as Hown
      by (intros o; apply inherited_other; congruence).
    rewrite !(setDeep_cons _ a) by (done || by destruct pre). cbn [tree].
    rewrite !nextNode_insert, !insert_insert_eq. by rewrite IH.
Qed.

(** At the top level [setDeep] removes nothing and adds the first key of
    the path (the empty key for an empty path), unless that key is
    [__proto__]. *)
Theorem setDeep_top_level (keys : list string) (obj : gmap string json) (value : json) :
  head keys ≠ Some "__proto__" →
  dom (tree (setDeep obj keys value)) = {[ default "" (head keys) ]} ∪ dom obj.
Proof.
  intros Hhead. destruct keys as [|key rest]; [apply dom_insert_L|].
  destruct (setDeep_head obj key rest value) as (bound & -> & _).
  - apply inherited_other. cbn in Hhead. congruence.
  - apply dom_insert_L.
Qed.

End SetDeepMore.

(** ** Profile brander: what ends up on disk *)

Section BranderMore.
Import Js Chrome.

Lemma append_assoc (a b c : string) : (a +:+ b) +:+ c = a +:+ (b +:+ c).
Proof.
  induction a as [|ch a IH]; [reflexivity|].
  change (String ch ((a +:+ b) +:+ c) = String ch (a +:+ (b +:+ c))). by rewrite IH.
Qed.

Lemma brander_paths_differ (userDataDir : string) :
  localStatePath userDataDir ≠ preferencesPath userDataDir
  ∧ localStatePath userDataDir ≠ decoratedMarkerPath userDataDir
  ∧ preferencesPath userDataDir ≠ decoratedMarkerPath userDataDir.
Proof.
  unfold localStatePath, preferencesPath, decoratedMarkerPath, path_join.
  rewrite append_assoc.
  repeat split; intros Heq%(inj (String.append userDataDir)); by vm_compute in Heq.
Qed.

Lemma safeReadJson_readJson (filePath : string) (fs : FileSystem) :
  safeReadJson filePath fs = (Returns (readJson fs filePath), fs).
Proof.
  unfold readJson. destruct (safeReadJson_total filePath fs) as [read ->]. done.
Qed.

Lemma readJson_iff (fs : FileSystem) (filePath : string) (j : json) :
  readJson fs filePath = Some j
  ↔ faulty fs OpRead filePath = false
    ∧ files fs !! filePath = Some (Encodes j)
    ∧ isObjectType j = true.
Proof.
  unfold readJson, safeReadJson, tryCatch, bind. rewrite exists_present.
  unfold present.
  destruct (files fs !! filePath) as [text|] eqn:Hfile.
  - rewrite bool_decide_eq_true_2 by eauto. cbn [negb]. unfold readFileSync.
    rewrite Hfile. destruct (faulty fs OpRead filePath).
    { split; [done|]. by intros [? _]. }
    destruct text as [|parsed]; cbn.
    { split; [done|]. by intros (_ & ? & _). }
    destruct (isObjectType parsed) eqn:Hobj; cbn; split.
    + intros [= <-]. done.
    + by intros (_ & [= <-] & _).
    + done.
    + intros (_ & [= <-] & Hj). congruence.
  - rewrite bool_decide_eq_false_2 by (by intros [? ?]). cbn.
    split; [done|]. by intros (_ & ? & _).
Qed.

(** [safeReadJson] never throws and never changes the file system.  It
    yields a tree exactly when the file can be read and its text parses
    to an object or an array; a missing, unreadable or unparsable file
    and a text that parses to null, a number, a string or a boolean all
    count as nothing read. *)
Theorem safeReadJson_reads (filePath : string) (fs : FileSystem) :
  ∃ read,
    safeReadJson filePath fs = (Returns read, fs)
    ∧ ∀ j, read = Some j
           ↔ faulty fs OpRead filePath = false
             ∧ files fs !! filePath = Some (Encodes j)
             ∧ isObjectType j = true.
Proof.
  exists (readJson fs filePath). split; [apply safeReadJson_readJson|].
  intros j. apply readJson_iff.
Qed.

Lemma option_same {A} (a b : option A) : (∀ x, a = Some x ↔ b = Some x) → a = b.
Proof.
  intros Hsame. destruct a as [x|].
  - symmetry. by apply Hsame.
  - destruct b as [y|]; [|done]. by apply Hsame.
Qed.

Lemma readJson_same (fs fs' : FileSystem) (filePath : string) :
  faulty fs' = faulty fs → files fs' !! filePath = files fs !! filePath →
  readJson fs' filePath = readJson fs filePath.
Proof.
  intros Hfaulty Hfile. apply option_same. intros j.
  by rewrite !readJson_iff, Hfaulty, Hfile.
Qed.

Lemma readJson_written (fs : FileSystem) (filePath : string) (j : json) :
  files fs !! filePath = Some (Encodes j) → isObjectType j = true →
  readJson fs filePath = if faulty fs OpRead filePath then None else Some j.
Proof.
  intros Hfile Hobj. destruct (faulty fs OpRead filePath) eqn:Hfaulty.
  - apply option_same. intros x. rewrite readJson_iff, Hfaulty.
    split; [by intros [? _]|done].
  - by apply readJson_iff.
Qed.

Lemma safeWriteJson_run (filePath : string) (data : json) (fs : FileSystem) :
  safeWriteJson filePath data fs
  = if negb (faulty fs OpMkdir (path_dirname filePath))
       && negb (faulty fs OpWrite filePath)
    then (Returns tt,
          {| files := <[filePath := Encodes data]> (files fs); faulty := faulty fs |})
    else (Throws "EACCES", fs).
Proof.
  unfold safeWriteJson, bind, mkdirSync, writeFileSync.
  destruct (faulty fs OpMkdir _); [done|]. by destruct (faulty fs OpWrite _).
Qed.

(** The brander, step by step. *)
Lemma decorate_run (name : string) (now : Z) (userDataDir : string)
    (opts : option DecorateOpts) (fs : FileSystem) :
  decorateClawdProfile name now userDataDir opts fs
  = match safeWriteJson (localStatePath userDataDir)
            (brandLocalState (JStr name) (desiredColor opts)
               (default (JObj ∅) (readJson fs (localStatePath userDataDir)))) fs with
    | (Throws e, fs1) => (Throws e, fs1)
    | (Returns _, fs1) =>
        match safeWriteJson (preferencesPath userDataDir)
                (brandPreferences (JStr name) (desiredColor opts)
                   (default (JObj ∅) (readJson fs1 (preferencesPath userDataDir)))) fs1 with
        | (Throws e, fs2) => (Throws e, fs2)
        | (Returns _, fs2) =>
            tryCatch
              (writeFileSync (decoratedMarkerPath userDataDir) (Encodes (JNum now)))
              (fun _ => ret tt) fs2
        end
    end.
Proof.
  unfold decorateClawdProfile. cbv zeta. unfold bind at 1.
  fold (localStatePath userDataDir). fold (preferencesPath userDataDir).
  rewrite safeReadJson_readJson. unfold bind at 1.
  fold (desiredColor opts).
  change (safeWriteJson (localStatePath userDataDir) _ fs)
    with (safeWriteJson (localStatePath userDataDir)
            (brandLocalState (JStr name) (desiredColor opts)
               (default (JObj ∅) (readJson fs (localStatePath userDataDir)))) fs).
  destruct (safeWriteJson (localStatePath userDataDir) _ fs) as [[[]|e] fs1]; [|done].
  unfold bind at 1. rewrite safeReadJson_readJson. unfold bind at 1.
  change (safeWriteJson (preferencesPath userDataDir) _ fs1)
    with (safeWriteJson (preferencesPath userDataDir)
            (brandPreferences (JStr name) (desiredColor opts)
               (default (JObj ∅) (readJson fs1 (preferencesPath userDataDir)))) fs1).
  by destruct (safeWriteJson (preferencesPath userDataDir) _ fs1) as [[[]|e] fs2].
Qed.

Lemma setDeep_sibling (pre : list string) (k k' : string) (obj : gmap string json)
    (value : json) :
  k ≠ k' →
  getPath (JObj (tree (setDeep obj (pre ++ [k]) value))) (pre ++ [k'])
  = getPath (JObj obj) (pre ++ [k']).
Proof. intros Hne. by apply (setDeep_frame pre obj k k' [] []). Qed.

Lemma setDeep_apart (keys other : list string) (obj : gmap string json) (value : json) :
  partWays keys other →
  getPath (JObj (tree (setDeep obj keys value))) other = getPath (JObj obj) other.
Proof.
  intros (pre & k & k' & rest & rest' & Hne & -> & ->). by apply setDeep_frame.
Qed.

(** The tree written to [Local State], when what was read is no array. *)
Lemma brandLocalState_paths (name color : json) (fields : gmap string json) :
  ∃ branded,
    brandLocalState name color (JObj fields) = JObj branded
    ∧ getPath (JObj branded) ["profile"; "info_cache"; "Default"; "name"] = Some name
    ∧ getPath (JObj branded) ["profile"; "info_cache"; "Default"; "shortcut_name"]
      = Some name
    ∧ getPath (JObj branded) ["profile"; "info_cache"; "Default"; "user_name"]
      = Some name
    ∧ getPath (JObj branded) ["profile"; "info_cache"; "Default"; "profile_color"]
      = Some color
    ∧ getPath (JObj branded) ["profile"; "info_cache"; "Default"; "user_color"]
      = Some color
    ∧ ∀ other, Forall (fun keys => partWays keys other) localStateKeys →
               getPath (JObj branded) other = getPath (JObj fields) other.
Proof.
  eexists. split; [reflexivity|].
  pose proof (setDeep_sibling ["profile"; "info_cache"; "Default"]) as Hsib.
  cbn [app] in Hsib.
  repeat split;
    rewrite ?Hsib by done;
    try (apply setDeep_binds; [done|by apply (bool_decide_unpack _); vm_compute]).
  intros other Hother. unfold localStateKeys in Hother.
  repeat match goal with
         | H : Forall _ (_ :: _) |- _ => apply Forall_cons_1 in H as [? H]
         end.
  by rewrite !setDeep_apart.
Qed.

Lemma brandPreferences_paths (name color : json) (fields : gmap string json) :
  ∃ branded,
    brandPreferences name color (JObj fields) = JObj branded
    ∧ getPath (JObj branded) ["profile"; "name"] = Some name
    ∧ getPath (JObj branded) ["profile"; "profile_color"] = Some color
    ∧ getPath (JObj branded) ["profile"; "user_color"] = Some color
    ∧ ∀ other, Forall (fun keys => partWays keys other) preferencesKeys →
               getPath (JObj branded) other = getPath (JObj fields) other.
Proof.
  eexists. split; [reflexivity|].
  pose proof (setDeep_sibling ["profile"]) as Hsib. cbn [app] in Hsib.
  repeat split;
    rewrite ?Hsib by done;
    try (apply setDeep_binds; [done|by apply (bool_decide_unpack _); vm_compute]).
  intros other Hother. unfold preferencesKeys in Hother.
  repeat match goal with
         | H : Forall _ (_ :: _) |- _ => apply Forall_cons_1 in H as [? H]
         end.
  by rewrite !setDeep_apart.
Qed.

Lemma brandLocalState_twice (name color root : json) :
  brandLocalState name color (brandLocalState name color root)
  = brandLocalState name color root.
Proof.
  destruct root as [| | | | |fields]; try reflexivity.
  destruct (brandLocalState_paths name color fields)
    as (branded & -> & H1 & H2 & H3 & H4 & H5 & _).
  unfold brandLocalState. cbn [setDeepRoot].
  repeat match goal with
         | H : getPath (JObj branded) ?keys = Some ?v
           |- context [tree (setDeep branded ?keys ?v)] =>
             rewrite (setDeep_noop keys branded v ltac:(done) H); clear H
         end.
  reflexivity.
Qed.

Lemma brandPreferences_twice (name color root : json) :
  brandPreferences name color (brandPreferences name color root)
  = brandPreferences name color root.
Proof.
  destruct root as [| | | | |fields]; try reflexivity.
  destruct (brandPreferences_paths name color fields)
    as (branded & -> & H1 & H2 & H3 & _).
  unfold brandPreferences. cbn [setDeepRoot].
  repeat match goal with
         | H : getPath (JObj branded) ?keys = Some ?v
           |- context [tree (setDeep branded ?keys ?v)] =>
             rewrite (setDeep_noop keys branded v ltac:(done) H); clear H
         end.
  reflexivity.
Qed.

Lemma brand_object_type (name color root : json) :
  isObjectType root = true →
  isObjectType (brandLocalState name color root) = true
  ∧ isObjectType (brandPreferences name color root) = true.
Proof. by destruct root. Qed.

Lemma readJson_object_type (fs : FileSystem) (filePath : string) :
  isObjectType (default (JObj ∅) (readJson fs filePath)) = true.
Proof.
  destruct (readJson fs filePath) as [j|] eqn:Hread; [|done].
  by apply readJson_iff in Hread as (_ & _ & ?).
Qed.

(** The file system a decoration leaves when both files can be written. *)
Lemma decorate_success (name : string) (now : Z) (userDataDir : string)
    (opts : option DecorateOpts) (fs : FileSystem) :
  prefsWritable fs userDataDir = true →
  decorateClawdProfile name now userDataDir opts fs
  = (Returns tt,
     {| files :=
          (if faulty fs OpWrite (decoratedMarkerPath userDataDir) then fun f => f
           else <[decoratedMarkerPath userDataDir := Encodes (JNum now)]>)
            (<[preferencesPath userDataDir :=
                 Encodes (brandPreferences (JStr name) (desiredColor opts)
                            (default (JObj ∅)
                               (readJson fs (preferencesPath userDataDir))))]>
               (<[localStatePath userDataDir :=
                    Encodes (brandLocalState (JStr name) (desiredColor opts)
                               (default (JObj ∅)
                                  (readJson fs (localStatePath userDataDir))))]>
                  (files fs)));
        faulty := faulty fs |}).
Proof.
  intros Hw. unfold prefsWritable in Hw. fold (localStatePath userDataDir) in Hw.
  fold (preferencesPath userDataDir) in Hw.
  apply andb_true_iff in Hw as [Hw H4]. apply andb_true_iff in Hw as [Hw H3].
  apply andb_true_iff in Hw as [H1 H2].
  destruct (brander_paths_differ userDataDir) as (Hlp & _ & _).
  rewrite decorate_run, safeWriteJson_run, H1, H2. cbn [andb].
  rewrite safeWriteJson_run. cbn [faulty]. rewrite H3, H4. cbn [andb].
  rewrite (readJson_same fs _ (preferencesPath userDataDir));
    [|done|by cbn [files]; rewrite lookup_insert_ne].
  unfold tryCatch, writeFileSync, ret. cbn [faulty files].
  by destruct (faulty fs OpWrite (decoratedMarkerPath userDataDir)).
Qed.

Lemma decorate_failure (name : string) (now : Z) (userDataDir : string)
    (opts : option DecorateOpts) (fs : FileSystem) :
  prefsWritable fs userDataDir = false →
  faulty (decorateClawdProfile name now userDataDir opts fs).2 = faulty fs
  ∧ ∀ p, p ≠ localStatePath userDataDir →
         files (decorateClawdProfile name now userDataDir opts fs).2 !! p
         = files fs !! p.
Proof.
  intros Hw. unfold prefsWritable in Hw. cbv zeta in Hw.
  fold (localStatePath userDataDir) in Hw.
  fold (preferencesPath userDataDir) in Hw.
  rewrite decorate_run, safeWriteJson_run.
  destruct (negb (faulty fs OpMkdir (path_dirname (localStatePath userDataDir)))
            && negb (faulty fs OpWrite (localStatePath userDataDir))) eqn:Hls;
    [|done].
  cbn [andb] in Hw.
  rewrite safeWriteJson_run. cbn [faulty]. rewrite Hw.
  cbn [snd files faulty]. split; [done|]. intros p Hp. by rewrite lookup_insert_ne.
Qed.

Lemma marker_step (b : bool) (marker p : string) (t : Text) (f : gmap string Text) :
  p ≠ marker →
  (if b then fun f => f else <[marker := t]>) f !! p = f !! p.
Proof. intros Hne. destruct b; [done|]. by rewrite lookup_insert_ne. Qed.

(** After a decoration that could write both files, [Local State] holds
    an object whose profile entry carries the name under [name],
    [shortcut_name] and [user_name] and the upper-cased colour under
    [profile_color] and [user_color], provided what was read from the
    file was no array; everything else that was read from it is still
    there. *)
Theorem decorate_brands_local_state (name : string) (now : Z) (userDataDir : string)
    (opts : option DecorateOpts) (fs : FileSystem) :
  prefsWritable fs userDataDir = true →
  isArray (readJson fs (localStatePath userDataDir)) = false →
  ∃ branded,
    files (decorateClawdProfile name now userDataDir opts fs).2
      !! localStatePath userDataDir = Some (Encodes (JObj branded))
    ∧ getPath (JObj branded) ["profile"; "info_cache"; "Default"; "name"]
      = Some (JStr name)
    ∧ getPath (JObj branded) ["profile"; "info_cache"; "Default"; "shortcut_name"]
      = Some (JStr name)
    ∧ getPath (JObj branded) ["profile"; "info_cache"; "Default"; "user_name"]
      = Some (JStr name)
    ∧ getPath (JObj branded) ["profile"; "info_cache"; "Default"; "profile_color"]
      = Some (desiredColor opts)
    ∧ getPath (JObj branded) ["profile"; "info_cache"; "Default"; "user_color"]
      = Some (desiredColor opts)
    ∧ ∀ other, Forall (fun keys => partWays keys other) localStateKeys →
               getPath (JObj branded) other
               = getPath (default (JObj ∅) (readJson fs (localStatePath userDataDir)))
                         other.
Proof.
  intros Hw Harr. rewrite (decorate_success _ _ _ _ _ Hw). cbn [snd files].
  destruct (brander_paths_differ userDataDir) as (Hlp & Hlm & _).
  rewrite marker_step by done. rewrite lookup_insert_ne by done.
  rewrite lookup_insert_eq.
  pose proof (readJson_object_type fs (localStatePath userDataDir)) as Hobj.
  destruct (readJson fs (localStatePath userDataDir)) as [[| | | | |fields]|];
    try discriminate; cbn [default from_option id] in *.
  - destruct (brandLocalState_paths (JStr name) (desiredColor opts) fields)
      as (branded & -> & ?). by exists branded.
  - destruct (brandLocalState_paths (JStr name) (desiredColor opts) ∅)
      as (branded & -> & ?). by exists branded.
Qed.

(** Likewise [Default/Preferences] holds an object whose profile carries
    the name and the upper-cased colour, and keeps what else was read. *)
Theorem decorate_brands_preferences (name : string) (now : Z) (userDataDir : string)
    (opts : option DecorateOpts) (fs : FileSystem) :
  prefsWritable fs userDataDir = true →
  isArray (readJson fs (preferencesPath userDataDir)) = false →
  ∃ branded,
    files (decorateClawdProfile name now userDataDir opts fs).2
      !! preferencesPath userDataDir = Some (Encodes (JObj branded))
    ∧ getPath (JObj branded) ["profile"; "name"] = Some (JStr name)
    ∧ getPath (JObj branded) ["profile"; "profile_color"] = Some (desiredColor opts)
    ∧ getPath (JObj branded) ["profile"; "user_color"] = Some (desiredColor opts)
    ∧ ∀ other, Forall (fun keys => partWays keys other) preferencesKeys →
               getPath (JObj branded) other
               = getPath (default (JObj ∅) (readJson fs (preferencesPath userDataDir)))
                         other.
Proof.
  intros Hw Harr. rewrite (decorate_success _ _ _ _ _ Hw). cbn [snd files].
  destruct (brander_paths_differ userDataDir) as (_ & _ & Hpm).
  rewrite marker_step by done. rewrite lookup_insert_eq.
  pose proof (readJson_object_type fs (preferencesPath userDataDir)) as Hobj.
  destruct (readJson fs (preferencesPath userDataDir)) as [[| | | | |fields]|];
    try discriminate; cbn [default from_option id] in *.
  - destruct (brandPreferences_paths (JStr name) (desiredColor opts) fields)
      as (branded & -> & ?). by exists branded.
  - destruct (brandPreferences_paths (JStr name) (desiredColor opts) ∅)
      as (branded & -> & ?). by exists branded.
Qed.

Lemma reread (fs fs1 : FileSystem) (filePath : string) (name color : json)
    (brand : json → json → json → json) :
  (∀ root, isObjectType root = true → isObjectType (brand name color root) = true) →
  (∀ root, brand name color (brand name color root) = brand name color root) →
  faulty fs1 = faulty fs →
  files fs1 !! filePath
  = Some (Encodes (brand name color (default (JObj ∅) (readJson fs filePath)))) →
  brand name color (default (JObj ∅) (readJson fs1 filePath))
  = brand name color (default (JObj ∅) (readJson fs filePath)).
Proof.
  intros Htype Htwice Hfaulty Hfile.
  rewrite (readJson_written fs1 filePath _ Hfile)
    by (apply Htype, readJson_object_type).
  rewrite Hfaulty. destruct (faulty fs OpRead filePath) eqn:Hread; cbn [default].
  - assert (readJson fs filePath = None) as ->; [|done].
    apply option_same. intros j. rewrite readJson_iff, Hread.
    split; [by intros [? _]|done].
  - apply Htwice.
Qed.

(** Decorating a profile a second time, with the same name and colour,
    returns normally and leaves every file as the first decoration left
    it, the marker apart (it is stamped with the new time). *)
Theorem decorate_twice (name : string) (now now' : Z) (userDataDir : string)
    (opts : option DecorateOpts) (fs : FileSystem) :
  prefsWritable fs userDataDir = true →
  (decorateClawdProfile name now' userDataDir opts
     (decorateClawdProfile name now userDataDir opts fs).2).1 = Returns tt
  ∧ ∀ p, p ≠ decoratedMarkerPath userDataDir →
         files (decorateClawdProfile name now' userDataDir opts
                  (decorateClawdProfile name now userDataDir opts fs).2).2 !! p
         = files (decorateClawdProfile name now userDataDir opts fs).2 !! p.
Proof.
  intros Hw. rewrite (decorate_success _ now _ _ _ Hw). cbn [snd].
  destruct (brander_paths_differ userDataDir) as (Hlp & Hlm & Hpm).
  match goal with
  | |- context [decorateClawdProfile _ _ _ _ ?fs1] => set (once := fs1)
  end.
  assert (prefsWritable once userDataDir = true) as Hw' by exact Hw.
  rewrite (decorate_success _ now' _ _ _ Hw'). split; [done|].
  intros p Hp. cbn [snd files]. rewrite marker_step by done.
  assert (files once !! localStatePath userDataDir
          = Some (Encodes (brandLocalState (JStr name) (desiredColor opts)
                             (default (JObj ∅)
                                (readJson fs (localStatePath userDataDir))))))
    as Hls.
  { unfold once. cbn [files]. rewrite marker_step by done.
    rewrite lookup_insert_ne by done. apply lookup_insert_eq. }
  assert (files once !! preferencesPath userDataDir
          = Some (Encodes (brandPreferences (JStr name) (desiredColor opts)
                             (default (JObj ∅)
                                (readJson fs (preferencesPath userDataDir))))))
    as Hpf.
  { unfold once. cbn [files]. rewrite marker_step by done. apply lookup_insert_eq. }
  rewrite (reread fs once (localStatePath userDataDir) (JStr name) (desiredColor opts)
             brandLocalState
             (fun root Hroot => proj1 (brand_object_type _ _ root Hroot))
             (brandLocalState_twice _ _) eq_refl Hls).
  rewrite (reread fs once (preferencesPath userDataDir) (JStr name) (desiredColor opts)
             brandPreferences
             (fun root Hroot => proj2 (brand_object_type _ _ root Hroot))
             (brandPreferences_twice _ _) eq_refl Hpf).
  destruct (decide (p = preferencesPath userDataDir)) as [->|Hnp].
  { by rewrite lookup_insert_eq. }
  rewrite lookup_insert_ne by done.
  destruct (decide (p = localStatePath userDataDir)) as [->|Hnl].
  { by rewrite lookup_insert_eq. }
  by rewrite lookup_insert_ne.
Qed.

(** The marker is written last: it is there after a decoration that
    could write both preference files and the marker itself; otherwise
    the marker is as it was before, so that a failed decoration is tried
    again at the next launch. *)
Theorem decorate_marks_success (name : string) (now : Z) (userDataDir : string)
    (opts : option DecorateOpts) (fs : FileSystem) :
  files (decorateClawdProfile name now userDataDir opts fs).2
    !! decoratedMarkerPath userDataDir
  = if prefsWritable fs userDataDir
       && negb (faulty fs OpWrite (decoratedMarkerPath userDataDir))
    then Some (Encodes (JNum now))
    else files fs !! decoratedMarkerPath userDataDir.
Proof.
  destruct (brander_paths_differ userDataDir) as (Hlp & Hlm & Hpm).
  destruct (prefsWritable fs userDataDir) eqn:Hw; cbn [andb].
  - rewrite (decorate_success _ _ _ _ _ Hw). cbn [snd files].
    destruct (faulty fs OpWrite (decoratedMarkerPath userDataDir)); cbn [negb].
    + by rewrite !lookup_insert_ne.
    + apply lookup_insert_eq.
  - by apply (decorate_failure name now userDataDir opts fs Hw).
Qed.

(** A decoration writes three files and no other: whether it returns
    or throws, every other regular file is afterwards what it was before,
    there with the same content or not there.  (The directories that
    [safeWriteJson] creates for the two preference files are no regular
    files and do not show in [files].) *)
Theorem decorate_touches_three_files (name : string) (now : Z) (userDataDir : string)
    (opts : option DecorateOpts) (fs : FileSystem) (p : string) :
  p ≠ localStatePath userDataDir →
  p ≠ preferencesPath userDataDir →
  p ≠ decoratedMarkerPath userDataDir →
  files (decorateClawdProfile name now userDataDir opts fs).2 !! p = files fs !! p.
Proof.
  intros Hl Hp Hm. destruct (prefsWritable fs userDataDir) eqn:Hw.
  - rewrite (decorate_success _ _ _ _ _ Hw). cbn [snd files].
    rewrite marker_step by done. by rewrite !lookup_insert_ne.
  - by apply (decorate_failure name now userDataDir opts fs Hw).
Qed.

End BranderMore.

(** ** Shutdown: what a run looks like *)

Section ShutdownMore.
Import Chrome.

Lemma poll_shape (env : StopEnv) (timeoutMs : Z) (isKilled : bool) (fuel : nat) :
  ∀ (i : nat) (tr : list Action),
    poll fuel env i timeoutMs isKilled = Some tr →
    ∃ n last,
      tr = (rounds n ++ [last])%list
      ∧ (∀ j, (i ≤ j < i + n)%nat →
              reachableAt env j = true ∧ nowAt env j - startNow env < timeoutMs)
      ∧ (last = Probe false
         ∧ reachableAt env (i + n) = false
         ∧ nowAt env (i + n) - startNow env < timeoutMs
         ∨ last = Kill SIGKILL
           ∧ (timeoutMs ≤ nowAt env (i + n) - startNow env
              ∨ noExitCode (exitCodeAt env (i + n)) && isKilled = true)).
Proof.
  induction fuel as [|fuel IH]; intros i tr; [done|]. cbn [poll].
  destruct (Z.ltb_spec (nowAt env i - startNow env) timeoutMs) as [Hlt|Hge].
  - destruct (noExitCode (exitCodeAt env i) && isKilled) eqn:Hbreak.
    { intros [= <-]. exists 0%nat, (Kill SIGKILL). rewrite Nat.add_0_r.
      split; [done|]. split; [lia|]. right. auto. }
    destruct (reachableAt env i) eqn:Hreach; cbn [negb].
    + destruct (poll fuel env (S i) timeoutMs isKilled) as [rest|] eqn:Hrest; [|done].
      cbn. intros [= <-].
      destruct (IH (S i) rest Hrest) as (n & last & -> & Hbefore & Hlast).
      exists (S n), last. split; [done|]. split.
      * intros j Hj. destruct (decide (j = i)) as [->|]; [done|]. apply Hbefore. lia.
      * by replace (i + S n)%nat with (S i + n)%nat by lia.
    + intros [= <-]. exists 0%nat, (Probe false). rewrite Nat.add_0_r.
      split; [done|]. split; [lia|]. left. auto.
  - intros [= <-]. exists 0%nat, (Kill SIGKILL). rewrite Nat.add_0_r.
    split; [done|]. split; [lia|]. right. split; [done|]. left. lia.
Qed.

(** A shutdown does nothing at all for a process that was signalled
    before.  Otherwise it sends the graceful signal first, then probes
    and pauses any number of times while the endpoint answers within the
    deadline, and ends in exactly one of two ways: with the first probe
    that finds the endpoint unreachable (no forceful signal is sent), or
    with the forceful signal, which is its last action and is sent once
    the deadline has passed or the loop was left through the test on the
    process. *)
Theorem stopClawdChrome_shape (fuel : nat) (env : StopEnv) (running : RunningChrome)
    (timeoutMs : Z) (tr : list Action) :
  stopClawdChrome fuel env running timeoutMs = Some tr →
  killed (proc running) = true ∧ tr = []
  ∨ killed (proc running) = false
    ∧ ∃ n last,
        tr = (Kill SIGTERM :: rounds n ++ [last])%list
        ∧ (∀ j, (j < n)%nat →
                reachableAt env j = true ∧ nowAt env j - startNow env < timeoutMs)
        ∧ (last = Probe false
           ∧ reachableAt env n = false
           ∧ nowAt env n - startNow env < timeoutMs
           ∨ last = Kill SIGKILL
             ∧ (timeoutMs ≤ nowAt env n - startNow env
                ∨ noExitCode (exitCodeAt env n) && kill env SIGTERM false = true)).
Proof.
  unfold stopClawdChrome. destruct (killed (proc running)) eqn:Hk.
  - intros [= <-]. by left.
  - destruct (poll fuel env 0 timeoutMs _) as [rest|] eqn:Hpoll; [|done].
    cbn. intros [= <-]. right. split; [done|].
    destruct (poll_shape _ _ _ _ _ _ Hpoll) as (n & last & -> & Hbefore & Hlast).
    exists n, last. split; [done|]. split; [|done].
    intros j Hj. apply Hbefore. lia.
Qed.

Lemma probes_rounds (n : nat) (rest : list Action) :
  probes (rounds n ++ rest) = (n + probes rest)%nat.
Proof.
  induction n as [|n IH]; [done|]. unfold probes in *.
  cbn [rounds app List.filter isProbe length]. by rewrite IH.
Qed.

(** On a clock that advances by at least 100ms with every turn of the
    loop, a shutdown never probes the endpoint after the deadline: the
    k-th probe happens only if (k - 1) * 100 is below the timeout. *)
Theorem stopClawdChrome_probes_bounded (fuel : nat) (env : StopEnv)
    (running : RunningChrome) (timeoutMs : Z) (tr : list Action) :
  (∀ i, startNow env + 100 * Z.of_nat i ≤ nowAt env i) →
  stopClawdChrome fuel env running timeoutMs = Some tr →
  probes tr = 0%nat ∨ 100 * (Z.of_nat (probes tr) - 1) < timeoutMs.
Proof.
  intros Hclock Hrun. unfold stopClawdChrome in Hrun.
  destruct (killed (proc running)); [injection Hrun as <-; by left|].
  destruct (poll fuel env 0 timeoutMs _) as [rest|] eqn:Hpoll; [|done].
  cbn in Hrun. injection Hrun as <-.
  destruct (poll_shape _ _ _ _ _ _ Hpoll) as (n & last & -> & Hbefore & Hlast).
  change (probes (Kill SIGTERM :: rounds n ++ [last]))
    with (probes (rounds n ++ [last])).
  rewrite probes_rounds.
  destruct Hlast as [(-> & _ & Hn)|(-> & _)].
  - right. change (probes [Probe false]) with 1%nat.
    specialize (Hclock n). cbn [Nat.add] in Hn. lia.
  - change (probes [Kill SIGKILL]) with 0%nat. destruct n as [|n]; [by left|]. right.
    destruct (Hbefore n) as [_ Hn]; [lia|]. specialize (Hclock n). lia.
Qed.

(** More turns than the loop takes change nothing. *)
Lemma poll_more_fuel (env : StopEnv) (timeoutMs : Z) (isKilled : bool)
    (fuel fuel' : nat) (i : nat) (tr : list Action) :
  poll fuel env i timeoutMs isKilled = Some tr →
  (fuel ≤ fuel')%nat →
  poll fuel' env i timeoutMs isKilled = Some tr.
Proof.
  revert fuel' i tr. induction fuel as [|fuel IH]; intros fuel' i tr Hrun Hle;
    [done|].
  destruct fuel' as [|fuel']; [lia|]. cbn [poll] in *.
  destruct (_ <? _); [|done].
  destruct (noExitCode _ && isKilled); [done|].
  destruct (negb _); [done|].
  destruct (poll fuel env (S i) timeoutMs isKilled) as [rest|] eqn:Hrest; [|done].
  by rewrite (IH fuel' (S i) rest Hrest ltac:(lia)).
Qed.

(** On a clock that advances by at least 100ms with every turn of the
    loop, a shutdown always comes to an end: it does what it does within
    [timeoutMs / 100 + 1] turns, and allowing it more turns makes no
    difference. *)
Theorem stopClawdChrome_terminates (env : StopEnv) (running : RunningChrome)
    (timeoutMs : Z) :
  (∀ i, startNow env + 100 * Z.of_nat i ≤ nowAt env i) →
  ∃ tr, ∀ fuel,
    (Z.to_nat (timeoutMs / 100) + 2 ≤ fuel)%nat →
    stopClawdChrome fuel env running timeoutMs = Some tr.
Proof.
  intros Hclock.
  assert (Hdiv : timeoutMs < 100 * (timeoutMs / 100 + 1)).
  { pose proof (Z.mod_pos_bound timeoutMs 100 ltac:(lia)).
    pose proof (Z.div_mod timeoutMs 100 ltac:(lia)). lia. }
  set (enough := (Z.to_nat (timeoutMs / 100) + 2)%nat).
  unfold stopClawdChrome. destruct (killed (proc running)); [by eexists|].
  destruct (poll_returns env timeoutMs (kill env SIGTERM false) Hclock enough 0%nat)
    as [rest Hrest]; [lia|lia|].
  exists (Kill SIGTERM :: rest). intros fuel Hfuel.
  by rewrite (poll_more_fuel _ _ _ enough fuel 0%nat rest Hrest Hfuel).
Qed.

End ShutdownMore.

(** ** Browser configuration: what a resolved configuration guarantees *)

Section ResolveFacts.
Import Js Config Resolve.
Variable DEFAULT_CLAWD_BROWSER_ENABLED : bool.
Variable DEFAULT_CLAWD_BROWSER_CONTROL_URL : string.
Variable DEFAULT_CLAWD_BROWSER_CDP_PORT : Z.
Variable newURL : string → option URL.

Lemma normalizeHexColor_shape (raw : option string) :
  isUpperColor (normalizeHexColor raw) = true.
Proof.
  unfold normalizeHexColor.
  destruct (trim (default "" raw)) as [|c r]; [reflexivity|].
  change (String.eqb (String c r) "") with false. cbv iota.
  change (startsWith (String c r) "#") with (Ascii.eqb "#" c).
  rewrite (Ascii.eqb_sym "#" c).
  destruct (Ascii.eqb_spec c "#") as [->|Hne].
  - destruct (marker_cases "#" r) as (_ & _ & ->). simpl Ascii.eqb. cbv iota.
    destruct (sixHexDigits r) eqn:Hr; simpl negb; cbv iota; [|reflexivity].
    apply (sixHexDigits_upper r Hr).
  - destruct (marker_cases "#" (String c r)) as (_ & _ & ->). simpl Ascii.eqb.
    cbv iota. destruct (sixHexDigits (String c r)) eqn:Hr; simpl negb; cbv iota;
      [|reflexivity].
    apply (sixHexDigits_upper _ Hr).
Qed.

(** What is known once [resolveBrowserConfig] has returned. *)
Lemma resolve_returns (cfg : option BrowserConfig.t) (r : ResolvedBrowserConfig) :
  resolveBrowserConfig DEFAULT_CLAWD_BROWSER_ENABLED
    DEFAULT_CLAWD_BROWSER_CONTROL_URL DEFAULT_CLAWD_BROWSER_CDP_PORT newURL cfg = inr r →
  ∃ parsed port',
    newURL (trim (default DEFAULT_CLAWD_BROWSER_CONTROL_URL
                    (cfg ≫= BrowserConfig.controlUrl))) = Some parsed
    ∧ (protocol parsed = "http:" ∨ protocol parsed = "https:")
    ∧ portOf parsed = Some port'
    ∧ 0 < port' ≤ 65535
    ∧ port' ≠ DEFAULT_CLAWD_BROWSER_CDP_PORT
    ∧ r = {| enabled := default DEFAULT_CLAWD_BROWSER_ENABLED
                          (cfg ≫= BrowserConfig.enabled);
             controlUrl := dropTrailingSlash (href parsed);
             controlHost := hostname parsed;
             controlPort := port';
             cdpPort := DEFAULT_CLAWD_BROWSER_CDP_PORT;
             color := normalizeHexColor (cfg ≫= BrowserConfig.color);
             headless := isTrue (cfg ≫= BrowserConfig.headless);
             attachOnly := isTrue (cfg ≫= BrowserConfig.attachOnly) |}.
Proof.
  unfold resolveBrowserConfig. cbv zeta.
  destruct (newURL _) as [parsed|]; [|done].
  destruct (String.eqb_spec (protocol parsed) "http:") as [Hhttp|Hhttp];
    destruct (String.eqb_spec (protocol parsed) "https:") as [Hhttps|Hhttps];
    cbn [negb andb]; try done.
  all: destruct (portOf parsed) as [port'|] eqn:Hport; [|done].
  all: destruct (Z.leb_spec port' 0); [done|].
  all: destruct (Z.ltb_spec 65535 port'); [done|]. all: cbn [orb].
  all: destruct (Z.eqb_spec port' DEFAULT_CLAWD_BROWSER_CDP_PORT); [done|].
  all: intros [= <-]; exists parsed, port'; repeat split;
    first [done | lia | by left | by right].
Qed.

(** A resolved configuration has a control port between 1 and 65535 that
    differs from the debugging port, which is the default one, and its
    control URL was an http or https URL. *)
Theorem resolved_ports (cfg : option BrowserConfig.t) (r : ResolvedBrowserConfig) :
  resolveBrowserConfig DEFAULT_CLAWD_BROWSER_ENABLED
    DEFAULT_CLAWD_BROWSER_CONTROL_URL DEFAULT_CLAWD_BROWSER_CDP_PORT newURL cfg = inr r →
  1 ≤ controlPort r ≤ 65535
  ∧ controlPort r ≠ cdpPort r
  ∧ cdpPort r = DEFAULT_CLAWD_BROWSER_CDP_PORT
  ∧ ∃ parsed,
      newURL (trim (default DEFAULT_CLAWD_BROWSER_CONTROL_URL
                      (cfg ≫= BrowserConfig.controlUrl))) = Some parsed
      ∧ (protocol parsed = "http:" ∨ protocol parsed = "https:")
      ∧ controlHost r = hostname parsed.
Proof.
  intros (parsed & port' & Hurl & Hproto & _ & Hrange & Hclash & ->)%resolve_returns.
  cbn [controlPort cdpPort controlHost]. repeat split; try lia; try done.
  by exists parsed.
Qed.

(** Whatever colour the configuration gives, valid or not or none, the
    resolved colour is an upper-case [#RRGGBB]. *)
Theorem resolved_color (cfg : option BrowserConfig.t) (r : ResolvedBrowserConfig) :
  resolveBrowserConfig DEFAULT_CLAWD_BROWSER_ENABLED
    DEFAULT_CLAWD_BROWSER_CONTROL_URL DEFAULT_CLAWD_BROWSER_CDP_PORT newURL cfg = inr r → isUpperColor (color r) = true.
Proof.
  intros (parsed & port' & _ & _ & _ & _ & _ & ->)%resolve_returns.
  apply normalizeHexColor_shape.
Qed.

(** How an invalid-port error comes about. *)
Lemma invalid_port_cases (cfg : option BrowserConfig.t) (quoted : string) :
  resolveBrowserConfig DEFAULT_CLAWD_BROWSER_ENABLED
    DEFAULT_CLAWD_BROWSER_CONTROL_URL DEFAULT_CLAWD_BROWSER_CDP_PORT newURL cfg
  = inl (InvalidPort quoted) →
  ∃ parsed n,
    newURL (trim (default DEFAULT_CLAWD_BROWSER_CONTROL_URL
                    (cfg ≫= BrowserConfig.controlUrl))) = Some parsed
    ∧ quoted = port parsed
    ∧ parseInt10 quoted = Some n
    ∧ 65535 < n.
Proof.
  unfold resolveBrowserConfig. cbv zeta.
  destruct (newURL _) as [parsed|]; [|done].
  destruct (negb _ && negb _); [done|].
  unfold portOf.
  destruct (parseInt10 (port parsed)) as [n|] eqn:Hn.
  - destruct (negb (String.eqb (port parsed) "") && (0 <? n)) eqn:Hgiven.
    + apply andb_true_iff in Hgiven as [_ Hpos%Z.ltb_lt].
      destruct (Z.leb_spec n 0); [lia|]. cbn [orb].
      destruct (Z.ltb_spec 65535 n).
      * intros [= <-]. by exists parsed, n.
      * by destruct (n =? _).
    + destruct (String.eqb (protocol parsed) "https:");
        [change ((443 <=? 0) || (65535 <? 443)) with false
        |change ((80 <=? 0) || (65535 <? 80)) with false];
        cbv iota; by case_match.
  - rewrite andb_false_r.
    destruct (String.eqb (protocol parsed) "https:");
      [change ((443 <=? 0) || (65535 <? 443)) with false
      |change ((80 <=? 0) || (65535 <? 80)) with false];
      cbv iota; by case_match.
Qed.

(** The control port is the port of the URL when that reads as a
    positive number, and the default of the scheme otherwise: 443 for
    https and 80 for http, also when the URL gives port 0.  With a URL
    parser that follows the URL standard, where the port of a URL is
    empty or a number from 0 to 65535, the invalid-port error is never
    thrown: the tests behind it cannot fire. *)
Theorem control_port_follows_url (cfg : option BrowserConfig.t) :
  (∀ text parsed,
     newURL text = Some parsed →
     port parsed = "" ∨ ∃ n, parseInt10 (port parsed) = Some n ∧ 0 ≤ n ≤ 65535) →
  (∀ quoted,
     resolveBrowserConfig DEFAULT_CLAWD_BROWSER_ENABLED
       DEFAULT_CLAWD_BROWSER_CONTROL_URL DEFAULT_CLAWD_BROWSER_CDP_PORT newURL cfg
     ≠ inl (InvalidPort quoted))
  ∧ ∀ r,
      resolveBrowserConfig DEFAULT_CLAWD_BROWSER_ENABLED
        DEFAULT_CLAWD_BROWSER_CONTROL_URL DEFAULT_CLAWD_BROWSER_CDP_PORT newURL cfg
      = inr r →
      ∃ parsed,
        newURL (trim (default DEFAULT_CLAWD_BROWSER_CONTROL_URL
                        (cfg ≫= BrowserConfig.controlUrl))) = Some parsed
        ∧ (∀ n, parseInt10 (port parsed) = Some n → 0 < n → controlPort r = n)
        ∧ (port parsed = "" ∨ parseInt10 (port parsed) = Some 0 →
           controlPort r = if String.eqb (protocol parsed) "https:" then 443 else 80).
Proof.
  intros Hstandard. split.
  - intros quoted (parsed & n & Hurl & -> & Hn & Hlarge)%invalid_port_cases.
    destruct (Hstandard _ _ Hurl) as [Hnone|(n' & Hn' & Hrange)].
    + by rewrite Hnone in Hn.
    + rewrite Hn in Hn'. injection Hn' as <-. lia.
  - intros r (parsed & port' & Hurl & _ & Hport & _ & _ & ->)%resolve_returns.
    exists parsed. split; [done|]. cbn [controlPort]. unfold portOf in Hport. split.
    + intros n Hn Hpos. rewrite Hn in Hport.
      destruct (String.eqb_spec (port parsed) "") as [Hempty|_].
      { by rewrite Hempty in Hn. }
      rewrite (proj2 (Z.ltb_lt 0 n) Hpos) in Hport. cbn in Hport. congruence.
    + intros [Hempty|Hzero].
      * rewrite Hempty in Hport. cbn in Hport. by destruct (String.eqb _ "https:"); congruence.
      * rewrite Hzero in Hport. rewrite andb_false_r in Hport.
        by destruct (String.eqb _ "https:"); congruence.
Qed.

End ResolveFacts.

(** ** Launch *)

Section LaunchFacts.
Import Js Chrome Launch.
Variable CONFIG_DIR : string.
Variable DEFAULT_CLAWD_BROWSER_PROFILE_NAME : string.

Lemma existsOn_present (fs : FileSystem) (p : string) : existsOn fs p = present fs p.
Proof. reflexivity. Qed.

(** Either the launch refuses before anything is spawned, or it goes on
    with an existing candidate. *)
Lemma launch_cases (fuel : nat) (env : LaunchEnv)
    (resolved : Resolve.ResolvedBrowserConfig) (r : Launched) :
  launchClawdChrome CONFIG_DIR DEFAULT_CLAWD_BROWSER_PROFILE_NAME fuel env resolved
  = Some r →
  (steps r = []
   ∧ (result r = inl (PortUnavailable (Resolve.cdpPort resolved))
      ∧ portAvailable env = false
      ∨ result r = inl NoBrowserFound
        ∧ (platform env ≠ "darwin"
           ∨ Forall (fun c => present (disk env) (path c) = false)
                    (candidates (homedir env)))
      ∨ ∃ e, result r = inl (Raised e)))
  ∨ ∃ exe,
      portAvailable env = true
      ∧ platform env = "darwin"
      ∧ In exe (candidates (homedir env))
      ∧ present (disk env) (path exe) = true
      ∧ bringUp DEFAULT_CLAWD_BROWSER_PROFILE_NAME fuel env resolved exe
          (resolveClawdUserDataDir CONFIG_DIR DEFAULT_CLAWD_BROWSER_PROFILE_NAME)
          (negb (existsOn (disk env)
                   (decoratedMarkerPath
                      (resolveClawdUserDataDir CONFIG_DIR
                         DEFAULT_CLAWD_BROWSER_PROFILE_NAME))))
        = Some r.
Proof.
  unfold launchClawdChrome.
  destruct (portAvailable env); cbn [negb];
    [|intros [= <-]; left; split; [done|]; by left].
  destruct (String.eqb_spec (platform env) "darwin") as [Hmac|Hother].
  - unfold findChromeExecutableMac. rewrite firstExisting_find.
    destruct (List.find _ _) as [exe|] eqn:Hfind.
    + unfold mkdirSync. destruct (faulty (disk env) OpMkdir _).
      { intros [= <-]. left. split; [done|]. right. right. by eexists. }
      intros Hup. right. exists exe.
      apply List.find_some in Hfind as [Hin Hpresent]. done.
    + intros [= <-]. left. split; [done|]. right. left. split; [done|]. right.
      by apply find_absent.
  - intros [= <-]. left. split; [done|]. right. left. split; [done|]. by left.
Qed.

Lemma waitForFiles_pauses (env : LaunchEnv) (userDataDir : string) (fuel : nat) :
  ∀ i waited, waitForFiles fuel env i userDataDir = Some waited →
              ∃ n, waited = pauses n 100.
Proof.
  induction fuel as [|fuel IH]; intros i waited; [done|]. cbn [waitForFiles].
  destruct (_ <? _); [|intros [= <-]; by exists 0%nat].
  destruct (_ && _); [intros [= <-]; by exists 0%nat|].
  destruct (waitForFiles fuel env (S i) userDataDir) as [rest|] eqn:Hrest; [|done].
  cbn. intros [= <-]. destruct (IH _ _ Hrest) as [n ->]. by exists (S n).
Qed.

(** The wait for the endpoint asks, pauses after every answer "no", and
    stops at the first "yes" or when the deadline has passed. *)
Lemma waitForEndpoint_asks (env : LaunchEnv) (fuel : nat) :
  ∀ i asked k, waitForEndpoint fuel env i = Some (asked, k) →
               spawned asked = [] ∧ decorations asked = [].
Proof.
  induction fuel as [|fuel IH]; intros i asked k; [done|]. cbn [waitForEndpoint].
  destruct (_ <? _); [|by intros [= <- <-]].
  destruct (answerAt env i); [by intros [= <- <-]|].
  destruct (waitForEndpoint fuel env (S i)) as [[rest k']|] eqn:Hrest; [|done].
  cbn. intros [= <- <-]. by apply (IH _ _ _ Hrest).
Qed.

Lemma spawned_app (l l' : list Step) : spawned (l ++ l') = (spawned l ++ spawned l')%list.
Proof. apply omap_app. Qed.

Lemma decorations_app (l l' : list Step) :
  decorations (l ++ l') = (decorations l ++ decorations l')%list.
Proof. apply omap_app. Qed.

Lemma pauses_quiet (n : nat) (ms : Z) :
  spawned (pauses n ms) = [] ∧ decorations (pauses n ms) = [].
Proof. induction n as [|n [IH1 IH2]]; [done|]. by cbn. Qed.

(** A launch that got as far as spawning, taken apart. *)
Lemma bringUp_steps (fuel : nat) (env : LaunchEnv)
    (resolved : Resolve.ResolvedBrowserConfig) (exe : BrowserExecutable)
    (userDataDir : string) (needsDecorate : bool) (r : Launched) :
  bringUp DEFAULT_CLAWD_BROWSER_PROFILE_NAME fuel env resolved exe userDataDir
    needsDecorate = Some r →
  ∃ first asked (last : nat) (verdict : list Step),
    steps r
    = (Spawn (path exe) (spawnArgs resolved userDataDir)
         :: first ++ asked ++ verdict)%list
    ∧ spawned asked = [] ∧ decorations asked = []
    ∧ (needsDecorate = false ∧ first = [] ∧ last = 0%nat
       ∨ needsDecorate = true ∧ last = 1%nat
         ∧ ∃ n, first
                = (pauses n 100
                     ++ [Signalled 0 SIGTERM; Pause 300;
                         Decorated (decorationLine DEFAULT_CLAWD_BROWSER_PROFILE_NAME
                                      env userDataDir (Resolve.color resolved));
                         Spawn (path exe) (spawnArgs resolved userDataDir)])%list)
    ∧ (verdict = [Ask false; Signalled last SIGKILL]
       ∧ result r = inl (LaunchTimeout (Resolve.cdpPort resolved))
       ∨ verdict = [Ask true; Started (default (-1) (pidOf env last))]
         ∧ result r
           = inr {| pid := default (-1) (pidOf env last);
                    exe := exe;
                    userDataDir := userDataDir;
                    cdpPort := Resolve.cdpPort resolved;
                    startedAt := startedAtNow env;
                    proc := {| killed := false; exitCode := exitCodeThen env |} |}).
Proof.
  unfold bringUp. cbv zeta.
  destruct needsDecorate.
  - destruct (waitForFiles fuel env 0 userDataDir) as [waited|] eqn:Hwait; [|done].
    cbn [mbind option_bind].
    destruct (waitForEndpoint fuel env 0) as [[asked k]|] eqn:Hask; [|done].
    cbn [mbind option_bind fst snd].
    destruct (waitForFiles_pauses _ _ _ _ _ Hwait) as [n ->].
    destruct (waitForEndpoint_asks _ _ _ _ _ Hask) as [Hs Hd].
    destruct (answerAt env k); cbn [negb]; intros [= <-]; cbn [steps result];
      eexists _, asked, 1%nat, _; (split; [rewrite <- app_assoc; reflexivity|]);
      (split; [done|]); (split; [done|]); (split; [right; eauto|]); auto.
  - cbn [mbind option_bind].
    destruct (waitForEndpoint fuel env 0) as [[asked k]|] eqn:Hask; [|done].
    cbn [mbind option_bind fst snd].
    destruct (waitForEndpoint_asks _ _ _ _ _ Hask) as [Hs Hd].
    destruct (answerAt env k); cbn [negb]; intros [= <-]; cbn [steps result];
      eexists [], asked, 0%nat, _; (split; [reflexivity|]);
      (split; [done|]); (split; [done|]); (split; [left; eauto|]); auto.
Qed.

Lemma decorationLine_outcome (env : LaunchEnv) (userDataDir color : string) :
  decorationLine DEFAULT_CLAWD_BROWSER_PROFILE_NAME env userDataDir color
  = if prefsWritable (diskThen env) userDataDir then LogInfo else LogWarn "EACCES".
Proof.
  unfold decorationLine, launchDecorate, tryCatch, bind.
  pose proof (decorate_outcome DEFAULT_CLAWD_BROWSER_PROFILE_NAME (stampNow env)
                userDataDir (Some {| Chrome.color := Some color |}) (diskThen env))
    as Hout.
  destruct (decorateClawdProfile _ _ _ _ _) as [[[]|e] fs']; cbn [fst] in Hout;
    destruct (prefsWritable (diskThen env) userDataDir); try discriminate;
    [reflexivity|]. by injection Hout as ->.
Qed.

(** Nothing is spawned unless the port is free, the platform is macOS and
    a candidate executable exists: a launch that refuses has taken no
    step at all, and a launch that has taken a step began by spawning an
    executable that is a candidate and exists on the disk. *)
Theorem launch_spawns_only_a_found_browser (fuel : nat) (env : LaunchEnv)
    (resolved : Resolve.ResolvedBrowserConfig) (r : Launched) :
  launchClawdChrome CONFIG_DIR DEFAULT_CLAWD_BROWSER_PROFILE_NAME fuel env resolved
  = Some r →
  match steps r with
  | [] => ∃ e, result r = inl e ∧ e ≠ LaunchTimeout (Resolve.cdpPort resolved)
  | first :: _ =>
      portAvailable env = true
      ∧ platform env = "darwin"
      ∧ ∃ exe,
          In exe (candidates (homedir env))
          ∧ present (disk env) (path exe) = true
          ∧ first
            = Spawn (path exe)
                (spawnArgs resolved
                   (resolveClawdUserDataDir CONFIG_DIR
                      DEFAULT_CLAWD_BROWSER_PROFILE_NAME))
  end.
Proof.
  intros [[-> Hrefused]|(exe & Hport & Hmac & Hin & Hpresent & Hup)]%launch_cases.
  - destruct Hrefused as [[-> _]|[[-> _]|[e ->]]]; by eexists.
  - destruct (bringUp_steps _ _ _ _ _ _ _ Hup) as (first & asked & k & verdict & -> & _).
    repeat split; try done. by exists exe.
Qed.

(** A launch that spawns at all spawns once when the profile carries the
    marker and twice when it does not, each time the same executable with
    the same arguments. *)
Theorem launch_spawns_once_or_twice (fuel : nat) (env : LaunchEnv)
    (resolved : Resolve.ResolvedBrowserConfig) (r : Launched) :
  launchClawdChrome CONFIG_DIR DEFAULT_CLAWD_BROWSER_PROFILE_NAME fuel env resolved
  = Some r →
  steps r ≠ [] →
  ∃ exe,
    spawned (steps r)
    = replicate
        (if existsOn (disk env)
              (decoratedMarkerPath
                 (resolveClawdUserDataDir CONFIG_DIR DEFAULT_CLAWD_BROWSER_PROFILE_NAME))
         then 1 else 2)%nat
        (path exe,
         spawnArgs resolved
           (resolveClawdUserDataDir CONFIG_DIR DEFAULT_CLAWD_BROWSER_PROFILE_NAME)).
Proof.
  intros [[-> _]|(exe & _ & _ & _ & _ & Hup)]%launch_cases Hsteps; [done|].
  destruct (bringUp_steps _ _ _ _ _ _ _ Hup)
    as (first & asked & k & verdict & -> & Hasked & _ & Hfirst & Hverdict).
  exists exe. change (spawned (?s :: ?l)) with (spawned ([s] ++ l)).
  rewrite !spawned_app, Hasked.
  assert (spawned verdict = []) as -> by (by destruct Hverdict as [[-> _]|[-> _]]).
  destruct Hfirst as [(Hmarker & -> & _)|(Hmarker & _ & n & ->)].
  - apply negb_false_iff in Hmarker. by rewrite Hmarker.
  - apply negb_true_iff in Hmarker. rewrite Hmarker, spawned_app.
    by rewrite (proj1 (pauses_quiet n 100)).
Qed.

(** The outcome of a launch that spawned follows its last probe, the one
    made after the wait: on "yes" the launch logs the start and hands
    back the process spawned last, not signalled, with the debugging port
    of the configuration; on "no" it sends the forceful signal to the
    process spawned last and fails with the timeout error. *)
Theorem launch_outcome_follows_last_probe (fuel : nat) (env : LaunchEnv)
    (resolved : Resolve.ResolvedBrowserConfig) (r : Launched) :
  launchClawdChrome CONFIG_DIR DEFAULT_CLAWD_BROWSER_PROFILE_NAME fuel env resolved
  = Some r →
  steps r ≠ [] →
  ∃ before (last : nat),
    S last = length (spawned (steps r))
    ∧ ((∃ running,
          result r = inr running
          ∧ steps r = (before ++ [Ask true; Started (pid running)])%list
          ∧ pid running = default (-1) (pidOf env last)
          ∧ cdpPort running = Resolve.cdpPort resolved
          ∧ userDataDir running
            = resolveClawdUserDataDir CONFIG_DIR DEFAULT_CLAWD_BROWSER_PROFILE_NAME
          ∧ killed (proc running) = false)
       ∨ result r = inl (LaunchTimeout (Resolve.cdpPort resolved))
         ∧ steps r = (before ++ [Ask false; Signalled last SIGKILL])%list).
Proof.
  intros [[-> _]|(exe & _ & _ & _ & _ & Hup)]%launch_cases Hsteps; [done|].
  destruct (bringUp_steps _ _ _ _ _ _ _ Hup)
    as (first & asked & k & verdict & Hr & Hasked & _ & Hfirst & Hverdict).
  exists (Spawn (path exe)
            (spawnArgs resolved
               (resolveClawdUserDataDir CONFIG_DIR DEFAULT_CLAWD_BROWSER_PROFILE_NAME))
            :: first ++ asked)%list, k.
  assert (spawned verdict = []) as Hquiet
    by (by destruct Hverdict as [[-> _]|[-> _]]).
  split.
  - rewrite Hr. change (spawned (?s :: ?l)) with (spawned ([s] ++ l)).
    rewrite !spawned_app, Hasked, Hquiet.
    destruct Hfirst as [(_ & -> & ->)|(_ & -> & n & ->)]; [done|].
    rewrite spawned_app, (proj1 (pauses_quiet n 100)). done.
  - rewrite Hr. destruct Hverdict as [[-> ->]|[-> ->]].
    + right. split; [done|]. cbn [app]. by rewrite app_assoc.
    + left. eexists. split; [reflexivity|]. cbn [pid cdpPort userDataDir proc killed].
      split; [cbn [app]; by rewrite app_assoc|]. done.
Qed.

(** On a profile without marker the launch waits in turns of 100ms, then
    terminates the first process gracefully, pauses 300ms, decorates the
    profile and only then spawns again; a decoration that fails is logged
    as a warning and does not stop the launch.  On a profile with the
    marker nothing is decorated. *)
Theorem launch_decorates_between_spawns (fuel : nat) (env : LaunchEnv)
    (resolved : Resolve.ResolvedBrowserConfig) (r : Launched) :
  launchClawdChrome CONFIG_DIR DEFAULT_CLAWD_BROWSER_PROFILE_NAME fuel env resolved
  = Some r →
  steps r ≠ [] →
  let userDataDir :=
    resolveClawdUserDataDir CONFIG_DIR DEFAULT_CLAWD_BROWSER_PROFILE_NAME in
  let line :=
    if prefsWritable (diskThen env) userDataDir then LogInfo else LogWarn "EACCES" in
  if existsOn (disk env) (decoratedMarkerPath userDataDir)
  then decorations (steps r) = []
  else decorations (steps r) = [line]
       ∧ ∃ exe n rest,
           steps r
           = (Spawn (path exe) (spawnArgs resolved userDataDir)
                :: pauses n 100
                ++ [Signalled 0 SIGTERM; Pause 300; Decorated line;
                    Spawn (path exe) (spawnArgs resolved userDataDir)]
                ++ rest)%list.
Proof.
  intros [[-> _]|(exe & _ & _ & _ & _ & Hup)]%launch_cases Hsteps; [done|].
  intros userDataDir line.
  destruct (bringUp_steps _ _ _ _ _ _ _ Hup)
    as (first & asked & k & verdict & -> & _ & Hasked & Hfirst & Hverdict).
  fold userDataDir in Hfirst |- *.
  assert (decorations verdict = []) as Hquiet
    by (by destruct Hverdict as [[-> _]|[-> _]]).
  change (decorations (?s :: ?l)) with (decorations ([s] ++ l)).
  rewrite !decorations_app, Hasked, Hquiet.
  destruct Hfirst as [(Hmarker & -> & _)|(Hmarker & _ & n & ->)].
  - apply negb_false_iff in Hmarker. by rewrite Hmarker.
  - apply negb_true_iff in Hmarker. rewrite Hmarker.
    rewrite decorationLine_outcome. fold line. split.
    + rewrite decorations_app, (proj2 (pauses_quiet n 100)). done.
    + exists exe, n, (asked ++ verdict)%list. by rewrite <- !app_assoc.
Qed.

Lemma waitForFiles_returns (env : LaunchEnv) (userDataDir : string) :
  (∀ i, filesStart env + 100 * Z.of_nat i ≤ filesNowAt env i) →
  ∀ (fuel i : nat),
    (0 < fuel)%nat → 50 ≤ Z.of_nat i + Z.of_nat fuel - 1 →
    is_Some (waitForFiles fuel env i userDataDir).
Proof.
  intros Hclock fuel. induction fuel as [|fuel IH]; intros i Hpos Hfuel; [lia|].
  cbn [waitForFiles].
  destruct (Z.ltb_spec (filesNowAt env i) (filesStart env + 5000)); [|by eexists].
  destruct (_ && _); [by eexists|]. specialize (Hclock i).
  destruct (IH (S i)) as [rest ->]; [lia|lia|]. by eexists.
Qed.

Lemma waitForEndpoint_returns (env : LaunchEnv) :
  (∀ i, readyStart env + 200 * Z.of_nat i ≤ readyNowAt env i) →
  ∀ (fuel i : nat),
    (0 < fuel)%nat → 75 ≤ Z.of_nat i + Z.of_nat fuel - 1 →
    is_Some (waitForEndpoint fuel env i).
Proof.
  intros Hclock fuel. induction fuel as [|fuel IH]; intros i Hpos Hfuel; [lia|].
  cbn [waitForEndpoint].
  destruct (Z.ltb_spec (readyNowAt env i) (readyStart env + 15000)); [|by eexists].
  destruct (answerAt env i); [by eexists|]. specialize (Hclock i).
  destruct (IH (S i)) as [rest ->]; [lia|lia|]. by eexists.
Qed.

(** Both waits of a launch are bounded: on a clock that advances by the
    pause of each turn, a launch is over after at most 51 turns of the
    first wait and 76 of the second, so it always returns or throws. *)
Theorem launch_returns (fuel : nat) (env : LaunchEnv)
    (resolved : Resolve.ResolvedBrowserConfig) :
  (∀ i, filesStart env + 100 * Z.of_nat i ≤ filesNowAt env i) →
  (∀ i, readyStart env + 200 * Z.of_nat i ≤ readyNowAt env i) →
  (76 ≤ fuel)%nat →
  is_Some (launchClawdChrome CONFIG_DIR DEFAULT_CLAWD_BROWSER_PROFILE_NAME
             fuel env resolved).
Proof.
  intros Hfiles Hready Hfuel. unfold launchClawdChrome.
  destruct (portAvailable env); cbn [negb]; [|by eexists].
  destruct (String.eqb (platform env) "darwin"); [|by eexists].
  unfold findChromeExecutableMac. rewrite firstExisting_find.
  destruct (List.find _ _) as [exe|]; [|by eexists].
  unfold mkdirSync. destruct (faulty (disk env) OpMkdir _); [by eexists|].
  unfold bringUp. cbv zeta.
  destruct (waitForEndpoint_returns env Hready fuel 0%nat) as [[asked k] ->]; [lia|lia|].
  destruct (negb (existsOn _ _)).
  - destruct (waitForFiles_returns env
                (resolveClawdUserDataDir CONFIG_DIR DEFAULT_CLAWD_BROWSER_PROFILE_NAME)
                Hfiles fuel 0%nat) as [waited ->]; [lia|lia|].
    cbn [mbind option_bind fst snd]. by destruct (negb (answerAt env k)).
  - cbn [mbind option_bind fst snd]. by destruct (negb (answerAt env k)).
Qed.

(** The arguments of a spawn: the debugging port comes first, the blank
    page comes last and is the only argument that is not an option, and
    the headless flags are passed exactly when headless mode is asked
    for. *)
Theorem spawn_arguments (resolved : Resolve.ResolvedBrowserConfig) (userDataDir : string) :
  head (spawnArgs resolved userDataDir)
  = Some ("--remote-debugging-port=" +:+ numberText (Resolve.cdpPort resolved))
  ∧ last (spawnArgs resolved userDataDir) = Some "about:blank"
  ∧ (∀ arg, In arg (spawnArgs resolved userDataDir) →
            arg = "about:blank" ∨ isOption arg = true)
  ∧ (In "--headless=new" (spawnArgs resolved userDataDir)
     ↔ Resolve.headless resolved = true)
  ∧ (In "--disable-gpu" (spawnArgs resolved userDataDir)
     ↔ Resolve.headless resolved = true).
Proof.
  unfold spawnArgs.
  destruct (Resolve.headless resolved); cbn [app head]; (split; [done|]);
    (split; [done|]); (split; [|split]).
  all: try (intros arg Hin; cbn [In] in Hin;
            repeat destruct Hin as [<-|Hin]; by auto).
  all: split; try done; cbn [In]; try (by auto 20).
  all: intros Hin; repeat destruct Hin as [Hin|Hin]; try done; by vm_compute in Hin.
Qed.

End LaunchFacts.

(** ** The further properties at work *)

Section ClientInstances.
Import Js Cdp.

Lemma stray_frames_ignored_witness :
  step notANumber wholePage (run notANumber wholePage [WsOpen])
    (WsMessage (okFrame 7 (JObj ∅)))
  = run notANumber wholePage [WsOpen].
Proof.
  apply (stray_frames_ignored notANumber wholePage).
  intros i [= <-]. by vm_compute.
Defined.

Lemma error_frame_throws_without_closing_witness :
  flow (step notANumber wholePage (run notANumber wholePage [WsOpen])
          (WsMessage (errorFrame 1 "boom")))
  = Thrown (NewError (JStr "boom"))
  ∧ closeCalled (conn (step notANumber wholePage (run notANumber wholePage [WsOpen])
                         (WsMessage (errorFrame 1 "boom")))) = false.
Proof.
  destruct (error_frame_throws_without_closing notANumber wholePage [WsOpen]
              (AwaitEnable 1) 1 (errorFrame 1 "boom") (JStr "boom"))
    as (Hflow & _ & _ & Hclose); [by vm_compute|done|by repeat split; vm_compute|].
  split; [exact Hflow|]. rewrite Hclose. by vm_compute.
Defined.

Lemma finished_is_final_witness :
  flow (run notANumber wholePage
          ([WsError (NewError (JStr "ECONNREFUSED"))] ++ [WsOpen; WsClose]))
  = Thrown (NewError (JStr "ECONNREFUSED")).
Proof.
  destruct (finished_is_final notANumber wholePage
              [WsError (NewError (JStr "ECONNREFUSED"))] [WsOpen; WsClose])
    as [Hflow _]; [by vm_compute|].
  rewrite Hflow. by vm_compute.
Defined.

Lemma payload_is_decoded_witness :
  flow (step notANumber viewportOnly
          (run notANumber viewportOnly [WsOpen; WsMessage (okFrame 1 (JObj ∅))])
          (WsMessage (okFrame 2 (JObj {[ "data" := JNum 5 ]}))))
  = Thrown (TypeError (JNum 5))
  ∧ closeCalled (conn (step notANumber viewportOnly
                         (run notANumber viewportOnly
                            [WsOpen; WsMessage (okFrame 1 (JObj ∅))])
                         (WsMessage (okFrame 2 (JObj {[ "data" := JNum 5 ]})))))
    = true.
Proof.
  destruct (payload_is_decoded notANumber viewportOnly
              [WsOpen; WsMessage (okFrame 1 (JObj ∅))] 2
              (okFrame 2 (JObj {[ "data" := JNum 5 ]})) (JNum 5))
    as (Hflow & Hclosed & _);
    [by vm_compute|by split; vm_compute|by vm_compute|by vm_compute|by vm_compute|].
  exact (conj Hflow Hclosed).
Defined.

Lemma answered_capture_returns_witness :
  flow (run notANumber wholePage
          [WsOpen; WsMessage (okFrame 1 (JObj ∅)); WsMessage (okFrame 2 tallMetrics);
           WsMessage (okFrame 3 (JObj {[ "data" := JStr "aGVsbG8=" ]}))])
  = ReturnsBufferFrom (JStr "aGVsbG8=").
Proof.
  by destruct (answered_capture_returns notANumber wholePage (JObj ∅) tallMetrics
                 "aGVsbG8=" ltac:(done)) as [Hflow _].
Defined.

End ClientInstances.

Section DiskInstances.
Import Js Chrome.

Lemma setDeep_idempotent_witness :
  setDeep (tree (setDeep samplePrefs ["profile"; "name"] (JStr "clawd")))
          ["profile"; "name"] (JStr "clawd")
  = setDeep samplePrefs ["profile"; "name"] (JStr "clawd").
Proof.
  apply (setDeep_idempotent ["profile"; "name"] samplePrefs (JStr "clawd")).
  by apply (bool_decide_unpack _); vm_compute.
Defined.

Lemma setDeep_keeps_bound_witness :
  tree (setDeep samplePrefs ["browser"; "theme"] (JStr "dark")) = samplePrefs.
Proof.
  apply (setDeep_keeps_bound ["browser"; "theme"] samplePrefs (JStr "dark"));
    [done|by apply (bool_decide_unpack _); vm_compute|done].
Defined.

Lemma setDeep_commutes_witness :
  tree (setDeep (tree (setDeep samplePrefs ["profile"; "name"] (JStr "clawd")))
                ["profile"; "color"] (JStr "#FF4500"))
  = tree (setDeep (tree (setDeep samplePrefs ["profile"; "color"] (JStr "#FF4500")))
                  ["profile"; "name"] (JStr "clawd")).
Proof.
  apply setDeep_commutes;
    [by exists ["profile"], "name", "color", [], []
    |by apply (bool_decide_unpack _); vm_compute
    |by apply (bool_decide_unpack _); vm_compute].
Defined.

Lemma setDeep_top_level_witness :
  dom (tree (setDeep samplePrefs ["window"; "width"] (JNum 800)))
  = {[ "window" ]} ∪ dom samplePrefs.
Proof.
  apply (setDeep_top_level ["window"; "width"] samplePrefs (JNum 800)).
  discriminate.
Defined.

Lemma decorate_brands_local_state_witness :
  ∃ branded,
    files (decorateClawdProfile "clawd" 7 "/profile" None freshProfile).2
      !! localStatePath "/profile" = Some (Encodes (JObj branded))
    ∧ getPath (JObj branded) ["profile"; "info_cache"; "Default"; "name"]
      = Some (JStr "clawd")
    ∧ getPath (JObj branded) ["browser"; "enabled"] = Some (JBool true).
Proof.
  destruct (decorate_brands_local_state "clawd" 7 "/profile" None freshProfile)
    as (branded & Hfile & Hname & _ & _ & _ & _ & Hkept);
    [by vm_compute|by vm_compute|].
  exists branded. split; [exact Hfile|]. split; [exact Hname|].
  rewrite Hkept; [by vm_compute|].
  unfold localStateKeys.
  repeat (apply List.Forall_cons;
          [eexists [], "profile", "browser", _, _;
           (split; [done|]); split; reflexivity|]).
  apply List.Forall_nil.
Defined.

Lemma decorate_brands_preferences_witness :
  ∃ branded,
    files (decorateClawdProfile "clawd" 7 "/profile" None freshProfile).2
      !! preferencesPath "/profile" = Some (Encodes (JObj branded))
    ∧ getPath (JObj branded) ["profile"; "name"] = Some (JStr "clawd")
    ∧ getPath (JObj branded) ["profile"; "avatar"] = Some (JNum 26).
Proof.
  destruct (decorate_brands_preferences "clawd" 7 "/profile" None freshProfile)
    as (branded & Hfile & Hname & _ & _ & Hkept);
    [by vm_compute|by vm_compute|].
  exists branded. split; [exact Hfile|]. split; [exact Hname|].
  rewrite Hkept; [by vm_compute|].
  unfold preferencesKeys.
  repeat (apply List.Forall_cons;
          [eexists ["profile"], _, "avatar", [], [];
           (split; [|split; reflexivity]); done|]).
  apply List.Forall_nil.
Defined.

Lemma decorate_twice_witness :
  files (decorateClawdProfile "clawd" 9 "/profile" None
           (decorateClawdProfile "clawd" 7 "/profile" None freshProfile).2).2
    !! localStatePath "/profile"
  = files (decorateClawdProfile "clawd" 7 "/profile" None freshProfile).2
      !! localStatePath "/profile".
Proof.
  destruct (decorate_twice "clawd" 7 9 "/profile" None freshProfile) as [_ Hsame];
    [by vm_compute|].
  apply Hsame. by vm_compute.
Defined.

Lemma decorate_touches_three_files_witness :
  files (decorateClawdProfile "clawd" 7 "/profile" None freshProfile).2
    !! "/profile/Default/History"
  = files freshProfile !! "/profile/Default/History".
Proof.
  apply (decorate_touches_three_files "clawd" 7 "/profile" None freshProfile
           "/profile/Default/History"); by vm_compute.
Defined.

Lemma stopClawdChrome_shape_witness :
  ∃ n last,
    stopClawdChrome 30 goneProcess sampleRunning 2500
    = Some (Kill SIGTERM :: rounds n ++ [last])%list
    ∧ (last = Probe false ∨ last = Kill SIGKILL).
Proof.
  destruct (stopClawdChrome 30 goneProcess sampleRunning 2500) as [tr|] eqn:Hrun;
    [|by vm_compute in Hrun].
  destruct (stopClawdChrome_shape 30 goneProcess sampleRunning 2500 tr Hrun)
    as [[Hkilled _]|(_ & n & last & -> & _ & Hlast)]; [by vm_compute in Hkilled|].
  exists n, last. split; [done|]. destruct Hlast as [[-> _]|[-> _]]; auto.
Defined.

Lemma stopClawdChrome_probes_bounded_witness :
  ∃ tr,
    stopClawdChrome 30 goneProcess sampleRunning 2500 = Some tr
    ∧ (probes tr = 0%nat ∨ 100 * (Z.of_nat (probes tr) - 1) < 2500).
Proof.
  destruct (stopClawdChrome 30 goneProcess sampleRunning 2500) as [tr|] eqn:Hrun;
    [|by vm_compute in Hrun].
  exists tr. split; [done|].
  apply (stopClawdChrome_probes_bounded 30 goneProcess sampleRunning 2500 tr);
    [|done]. intros i. cbn. lia.
Defined.

Lemma stopClawdChrome_terminates_witness :
  ∃ tr, ∀ fuel,
    (Z.to_nat (2500 / 100) + 2 ≤ fuel)%nat →
    stopClawdChrome fuel goneProcess sampleRunning 2500 = Some tr.
Proof.
  apply (stopClawdChrome_terminates goneProcess sampleRunning 2500).
  intros i. cbn. lia.
Defined.

End DiskInstances.

Section ResolveInstances.
Import Js Config Resolve.

Lemma resolved_ports_witness :
  ∃ r,
    resolveBrowserConfig true "http://127.0.0.1:18790" 18791 sampleURL None = inr r
    ∧ controlPort r = 18790 ∧ 1 ≤ controlPort r ≤ 65535 ∧ controlPort r ≠ cdpPort r.
Proof.
  destruct (resolveBrowserConfig true "http://127.0.0.1:18790" 18791 sampleURL None)
    as [e|r] eqn:Hr; [by vm_compute in Hr|].
  exists r.
  destruct (resolved_ports true "http://127.0.0.1:18790" 18791 sampleURL None r Hr)
    as (Hrange & Hclash & _).
  vm_compute in Hr. injection Hr as <-. repeat split; try done; apply Hrange.
Defined.

Lemma resolved_color_witness :
  ∃ r,
    resolveBrowserConfig true "http://127.0.0.1:18790" 18791 sampleURL
      (Some {| BrowserConfig.enabled := None; BrowserConfig.controlUrl := None;
               BrowserConfig.color := Some "not a colour";
               BrowserConfig.headless := None; BrowserConfig.attachOnly := None |})
    = inr r
    ∧ isUpperColor (color r) = true.
Proof.
  destruct (resolveBrowserConfig true "http://127.0.0.1:18790" 18791 sampleURL _)
    as [e|r] eqn:Hr; [by vm_compute in Hr|].
  exists r. split; [done|].
  exact (resolved_color true "http://127.0.0.1:18790" 18791 sampleURL _ r Hr).
Defined.

Lemma control_port_follows_url_witness :
  ∃ r,
    resolveBrowserConfig true "http://127.0.0.1:18790" 18791 sampleURL
      (Some {| BrowserConfig.enabled := None;
               BrowserConfig.controlUrl := Some " https://example.com:0 ";
               BrowserConfig.color := None;
               BrowserConfig.headless := None; BrowserConfig.attachOnly := None |})
    = inr r
    ∧ controlPort r = 443.
Proof.
  match goal with
  | |- context [resolveBrowserConfig _ _ _ _ ?given] => set (cfg := given)
  end.
  destruct (resolveBrowserConfig true "http://127.0.0.1:18790" 18791 sampleURL cfg)
    as [e|r] eqn:Hr; [by vm_compute in Hr|].
  exists r. split; [done|].
  destruct (control_port_follows_url true "http://127.0.0.1:18790" 18791 sampleURL cfg)
    as [_ Hport].
  { intros text parsed. unfold sampleURL.
    destruct (String.eqb text "http://127.0.0.1:18790").
    { intros [= <-]. right. exists 18790. split; [reflexivity|lia]. }
    destruct (String.eqb text "https://example.com:0"); [|done].
    intros [= <-]. right. exists 0. split; [reflexivity|lia]. }
  destruct (Hport r Hr) as (parsed & Hurl & _ & Hdefault).
  vm_compute in Hurl. injection Hurl as <-. apply Hdefault. by right.
Defined.

End ResolveInstances.

Section LaunchInstances.
Import Js Chrome Launch.

Lemma launch_spawns_only_a_found_browser_witness :
  ∃ r first rest,
    launchClawdChrome "/cfg" "clawd" 80 (sampleEnv decoratedDisk) sampleResolved = Some r
    ∧ steps r = first :: rest
    ∧ ∃ exe, present decoratedDisk (path exe) = true
             ∧ first = Spawn (path exe)
                         (spawnArgs sampleResolved
                            (resolveClawdUserDataDir "/cfg" "clawd")).
Proof.
  destruct (launchClawdChrome "/cfg" "clawd" 80 (sampleEnv decoratedDisk) sampleResolved)
    as [r|] eqn:Hr; [|by vm_compute in Hr].
  pose proof (launch_spawns_only_a_found_browser "/cfg" "clawd" 80
                (sampleEnv decoratedDisk) sampleResolved r Hr) as Hfound.
  destruct (steps r) as [|first rest] eqn:Hsteps.
  { vm_compute in Hr. injection Hr as <-. by vm_compute in Hsteps. }
  exists r, first, rest. split; [done|]. split; [done|].
  destruct Hfound as (_ & _ & exe & _ & Hpresent & Hfirst). by exists exe.
Defined.

Lemma launch_spawns_once_or_twice_witness :
  ∃ r,
    launchClawdChrome "/cfg" "clawd" 80 (sampleEnv onlyStable) sampleResolved = Some r
    ∧ length (spawned (steps r)) = 2%nat.
Proof.
  destruct (launchClawdChrome "/cfg" "clawd" 80 (sampleEnv onlyStable) sampleResolved)
    as [r|] eqn:Hr; [|by vm_compute in Hr].
  exists r. split; [done|].
  destruct (launch_spawns_once_or_twice "/cfg" "clawd" 80 (sampleEnv onlyStable)
              sampleResolved r Hr) as [exe ->].
  - vm_compute in Hr. injection Hr as <-. by vm_compute.
  - by vm_compute.
Defined.

Lemma launch_outcome_follows_last_probe_witness :
  ∃ r running,
    launchClawdChrome "/cfg" "clawd" 80 (sampleEnv decoratedDisk) sampleResolved = Some r
    ∧ result r = inr running
    ∧ cdpPort running = 18791
    ∧ killed (proc running) = false.
Proof.
  destruct (launchClawdChrome "/cfg" "clawd" 80 (sampleEnv decoratedDisk) sampleResolved)
    as [r|] eqn:Hr; [|by vm_compute in Hr].
  destruct (launch_outcome_follows_last_probe "/cfg" "clawd" 80
              (sampleEnv decoratedDisk) sampleResolved r Hr)
    as (before & last & _ & [(running & Hres & _ & _ & Hport & _ & Hkilled)|[Hres _]]).
  - vm_compute in Hr. injection Hr as <-. by vm_compute.
  - by exists r, running.
  - vm_compute in Hr. injection Hr as <-. by vm_compute in Hres.
Defined.

Lemma launch_decorates_between_spawns_witness :
  ∃ r,
    launchClawdChrome "/cfg" "clawd" 80 (sampleEnv onlyStable) sampleResolved = Some r
    ∧ decorations (steps r) = [LogInfo].
Proof.
  destruct (launchClawdChrome "/cfg" "clawd" 80 (sampleEnv onlyStable) sampleResolved)
    as [r|] eqn:Hr; [|by vm_compute in Hr].
  exists r. split; [done|].
  pose proof (launch_decorates_between_spawns "/cfg" "clawd" 80 (sampleEnv onlyStable)
                sampleResolved r Hr) as Hdec.
  assert (steps r ≠ []) as Hsteps.
  { pose proof Hr as Hr'. vm_compute in Hr'. injection Hr' as <-. by vm_compute. }
  specialize (Hdec Hsteps). cbv zeta in Hdec.
  change (existsOn (disk (sampleEnv onlyStable))
            (decoratedMarkerPath (resolveClawdUserDataDir "/cfg" "clawd")))
    with false in Hdec.
  destruct Hdec as [-> _]. by vm_compute.
Defined.

Lemma launch_returns_witness :
  is_Some (launchClawdChrome "/cfg" "clawd" 80 (sampleEnv onlyStable) sampleResolved).
Proof.
  apply (launch_returns "/cfg" "clawd" 80 (sampleEnv onlyStable) sampleResolved);
    [intros i; cbn; lia|intros i; cbn; lia|lia].
Defined.

End LaunchInstances.
